(** * Days Forward Coverage: the coverage engine of [helpers/dfc_algo.py]

    The development embeds the three methods of [DFCAlgo]
    ([_calculate_days_covered], [calculate_dfc], [calculate_dfc_over_time])
    twice:

    - a value layer, where a DataFrame is the list of its rows and every
      method is a function on lists;
    - an object layer, where a DataFrame is an object in a store, [copy],
      boolean-mask selection and [sort_values] allocate new objects, and
      column assignment and [.at[idx, col] = v] update an object in place.

    The object layer is proved to compute what the value layer computes and
    to leave every object of the caller as it was.

    Modelling conventions.
    - A timestamp is the integer that orders it ([ymd] builds one from a
      calendar date); the code only ever compares timestamps.  [NaT], the
      minimum of an empty column, is [None]: every comparison with it is
      false.
    - Quantities and demands are integers, as the data sets of
      [helpers/datasets.py] have them; the 64-bit range of the column is
      not modelled.
    - A row is identified by its position in its frame: pandas addresses
      rows by index label, and the labels of a frame read by [read_csv] are
      distinct.
    - [sort_values] on one column runs NumPy's default quicksort, which
      promises a sorted permutation and nothing about rows with equal keys:
      it is a parameter ([SortValues]), with insertion sort as an instance
      to compute with.  [sort_values] on a list of columns is pandas' stable
      lexicographic sort. *)

From Stdlib Require Import ZArith Ascii String Lia Decimal DecimalNat DecimalString.
From stdpp Require Import base decidable option list sorting gmap sets strings.

Open Scope Z_scope.

(** ** Data model *)

Definition timestamp := Z.

Definition ymd (y m d : Z) : timestamp := y * 10000 + m * 100 + d.

Record ForecastRecord := {
  f_product_id : string;
  f_date : timestamp;
  forecasted_sales : Z
}.

Record InventoryBatch := {
  i_product_id : string;
  batch_id : string;
  expiry_date : timestamp;
  inventory : Z
}.

(** A row of the coverage table.  The key ['has_forecast'] is present only
    in the rows of the two early branches of [calculate_dfc]. *)
Record CoverageResult := {
  product_id : string;
  days_forward_coverage : nat;
  total_inventory : Z;
  has_forecast : option bool
}.

(** A row of the table of [calculate_dfc_over_time]. *)
Record CoverageAt := {
  date : timestamp;
  at_days_forward_coverage : nat;
  at_total_inventory : Z
}.

#[global] Instance ForecastRecord_eq_dec : EqDecision ForecastRecord.
Proof. solve_decision. Defined.
#[global] Instance InventoryBatch_eq_dec : EqDecision InventoryBatch.
Proof. solve_decision. Defined.
#[global] Instance CoverageResult_eq_dec : EqDecision CoverageResult.
Proof. solve_decision. Defined.

(** [product_inventory.at[idx, INVENTORY_INVENTORY] = v] on one row. *)
Definition set_inventory (v : Z) (b : InventoryBatch) : InventoryBatch :=
  {| i_product_id := i_product_id b; batch_id := batch_id b;
     expiry_date := expiry_date b; inventory := v |}.

(** [df[INVENTORY_INVENTORY].sum()] *)
Definition inventory_sum (df : list InventoryBatch) : Z :=
  foldr (λ b acc, inventory b + acc) 0 df.

(** [df.empty] *)
Definition empty {A} (df : list A) : bool :=
  match df with [] => true | _ :: _ => false end.

(** [column >= current_date], where [current_date] may be [NaT]. *)
Definition on_or_after (current_date : option timestamp) (d : timestamp) : Prop :=
  match current_date with
  | Some c => c ≤ d
  | None => False
  end.

#[global] Instance on_or_after_dec c d : Decision (on_or_after c d).
Proof. destruct c; simpl; apply _. Defined.

(** [forecast_df[FORCAST_DATE].min()] *)
Definition min_date (forecast_df : list ForecastRecord) : option timestamp :=
  foldr (λ r acc, match acc with
                  | None => Some (f_date r)
                  | Some m => Some (Z.min (f_date r) m)
                  end) None forecast_df.

(** [Series.unique()]: the distinct values in order of first appearance. *)
Fixpoint unique (l : list timestamp) : list timestamp :=
  match l with
  | [] => []
  | x :: l' => x :: filter (λ y, y ≠ x) (unique l')
  end.

(** ** Sorting *)

(** Stable insertion sort for a boolean order. *)
Fixpoint insert_by {A} (le : A → A → bool) (x : A) (l : list A) : list A :=
  match l with
  | [] => [x]
  | y :: l' => if le x y then x :: y :: l' else y :: insert_by le x l'
  end.

Definition stable_sort {A} (le : A → A → bool) (l : list A) : list A :=
  foldr (insert_by le) [] l.

(** [sort_values(col)] with the default [kind='quicksort']. *)
Class SortValues := {
  sort_values : ∀ {A : Type}, (A → Z) → list A → list A;
  sort_values_perm : ∀ (A : Type) (key : A → Z) (df : list A),
    sort_values key df ≡ₚ df;
  sort_values_sorted : ∀ (A : Type) (key : A → Z) (df : list A),
    StronglySorted (λ x y, key x ≤ key y) (sort_values key df)
}.

(** [sort_values([FORCAST_PRODUCT_ID, FORCAST_DATE])]: stable, product ids
    compared as Python compares strings, character by character. *)
Definition product_date_le (a b : ForecastRecord) : bool :=
  match String.compare (f_product_id a) (f_product_id b) with
  | Lt => true
  | Eq => f_date a <=? f_date b
  | Gt => false
  end.

Definition sort_by_product_date (df : list ForecastRecord) : list ForecastRecord :=
  stable_sort product_date_le df.

(** ** The engine, on values *)

(** Line 55: [product_inventory[product_inventory[EXPIRY] >= forecast_date]]. *)
Definition drop_expired (forecast_date : timestamp)
    (product_inventory : list InventoryBatch) : list InventoryBatch :=
  filter (λ b, forecast_date ≤ expiry_date b) product_inventory.

(** Lines 68-80: the inner loop over [product_inventory.iterrows()].  A row
    is read before it is written and no other row is written meanwhile, so
    the loop is a single pass that rewrites the rows it visits. *)
Fixpoint fifo_consume (demand_to_fulfill : Z)
    (product_inventory : list InventoryBatch) : list InventoryBatch :=
  match product_inventory with
  | [] => []
  | inv_row :: rest =>
      let batch_quantity := inventory inv_row in
      if bool_decide (demand_to_fulfill ≤ batch_quantity)
      then set_inventory (batch_quantity - demand_to_fulfill) inv_row :: rest
      else set_inventory 0 inv_row
             :: fifo_consume (demand_to_fulfill - batch_quantity) rest
  end.

(** The variables the outer loop updates. *)
Record sim_state := {
  days_covered : nat;
  product_inventory : list InventoryBatch
}.

Inductive loop_exit := Continue | Break.

(** Lines 51-83: one iteration of the loop over the forecast rows. *)
Definition loop_body (forecast_row : ForecastRecord) (s : sim_state)
    : loop_exit * sim_state :=
  let forecast_date := f_date forecast_row in
  let daily_demand := forecasted_sales forecast_row in
  let product_inventory := drop_expired forecast_date (product_inventory s) in
  let remaining_inventory :=
    if empty product_inventory then 0 else inventory_sum product_inventory in
  if bool_decide (daily_demand ≤ remaining_inventory)
  then (Continue,
        {| days_covered := S (days_covered s);
           product_inventory := fifo_consume daily_demand product_inventory |})
  else (Break,
        {| days_covered := days_covered s;
           product_inventory := product_inventory |}).

(** Lines 50-83: the loop over [product_forecast.iterrows()]. *)
Fixpoint forecast_loop (rows : list ForecastRecord) (s : sim_state) : sim_state :=
  match rows with
  | [] => s
  | forecast_row :: rest =>
      match loop_body forecast_row s with
      | (Continue, s') => forecast_loop rest s'
      | (Break, s') => s'
      end
  end.


Section Engine.

Context `{SortValues}.

(** Lines 29-37: filtering by [start_date] and sorting. *)
Definition prepare_forecast (product_forecast : list ForecastRecord)
    (start_date : option timestamp) : list ForecastRecord :=
  let product_forecast :=
    match start_date with
    | Some d => filter (λ r, d ≤ f_date r) product_forecast
    | None => product_forecast
    end in
  sort_values f_date product_forecast.

Definition prepare_inventory (product_inventory : list InventoryBatch)
    (start_date : option timestamp) : list InventoryBatch :=
  let product_inventory :=
    match start_date with
    | Some d => filter (λ b, d ≤ expiry_date b) product_inventory
    | None => product_inventory
    end in
  sort_values expiry_date product_inventory.

(** [DFCAlgo._calculate_days_covered] *)
Definition _calculate_days_covered (product_forecast : list ForecastRecord)
    (product_inventory : list InventoryBatch) (start_date : option timestamp)
    : nat * Z :=
  let product_inventory := prepare_inventory product_inventory start_date in
  let product_forecast := prepare_forecast product_forecast start_date in
  let total_inventory := inventory_sum product_inventory in
  if empty product_inventory || empty product_forecast
  then (0%nat, total_inventory)
  else
    let s := forecast_loop product_forecast
               {| days_covered := 0; product_inventory := product_inventory |} in
    (days_covered s, total_inventory).

(** Lines 120-123: the reference date [calculate_dfc] works with. *)
Definition reference_date (forecast_df : list ForecastRecord)
    (current_date : option timestamp) : option timestamp :=
  match current_date with
  | None => min_date forecast_df
  | Some d => Some d
  end.

(** Line 126 *)
Definition valid_inventory (inventory_df : list InventoryBatch)
    (current_date : option timestamp) : list InventoryBatch :=
  filter (λ b, on_or_after current_date (expiry_date b)) inventory_df.

(** Lines 129-132 *)
Definition future_forecast (forecast_df : list ForecastRecord)
    (current_date : option timestamp) : list ForecastRecord :=
  sort_by_product_date
    (filter (λ r, on_or_after current_date (f_date r)) forecast_df).

(** Line 135: a Python set; only its elements matter, not their order. *)
Definition all_products (future_forecast : list ForecastRecord)
    (valid_inventory : list InventoryBatch) : gset string :=
  list_to_set (f_product_id <$> future_forecast)
    ∪ list_to_set (i_product_id <$> valid_inventory).

(** Lines 140-175: the body of the loop over [all_products]. *)
Definition product_row (future_forecast : list ForecastRecord)
    (valid_inventory : list InventoryBatch) (pid : string) : CoverageResult :=
  let product_forecast := filter (λ r, f_product_id r = pid) future_forecast in
  if empty product_forecast
  then {| product_id := pid; days_forward_coverage := 0;
          total_inventory := 0; has_forecast := Some false |}
  else
    let product_inventory := filter (λ b, i_product_id b = pid) valid_inventory in
    if empty product_inventory
    then {| product_id := pid; days_forward_coverage := 0;
            total_inventory := 0; has_forecast := Some true |}
    else
      let '(days_covered, total_inventory) :=
        _calculate_days_covered product_forecast product_inventory None in
      {| product_id := pid; days_forward_coverage := days_covered;
         total_inventory := total_inventory; has_forecast := None |}.

(** [DFCAlgo.calculate_dfc]; writing the table to a CSV file is left out. *)
Definition calculate_dfc (forecast_df : list ForecastRecord)
    (inventory_df : list InventoryBatch) (current_date : option timestamp)
    : list CoverageResult :=
  let current_date := reference_date forecast_df current_date in
  let valid_inventory := valid_inventory inventory_df current_date in
  let future_forecast := future_forecast forecast_df current_date in
  product_row future_forecast valid_inventory
    <$> elements (all_products future_forecast valid_inventory).

(** [DFCAlgo.calculate_dfc_over_time] *)
Definition calculate_dfc_over_time (forecast_df : list ForecastRecord)
    (inventory_df : list InventoryBatch) (pid : string) : list CoverageAt :=
  let product_forecast := filter (λ r, f_product_id r = pid) forecast_df in
  let product_inventory := filter (λ b, i_product_id b = pid) inventory_df in
  if empty product_forecast || empty product_inventory
  then []
  else
    let product_forecast := sort_values f_date product_forecast in
    let dates := unique (f_date <$> product_forecast) in
    (λ current_date,
       let '(days_covered, total_inventory) :=
         _calculate_days_covered product_forecast product_inventory
           (Some current_date) in
       {| date := current_date; at_days_forward_coverage := days_covered;
          at_total_inventory := total_inventory |}) <$> dates.

End Engine.

(** ** The engine, on objects

    A DataFrame is an object in a store.  Besides its rows a frame carries
    the dtype of its date column: [pd.to_datetime] turns the strings of a
    frame read from a CSV file into timestamps, so assigning the converted
    column to a frame changes that frame even where the dates stay the
    same. *)

Definition loc := positive.

Inductive dtype := object_dtype | datetime64.

Record DataFrame (A : Type) := {
  rows : list A;
  date_dtype : dtype
}.
Arguments rows {A} _.
Arguments date_dtype {A} _.
Arguments Build_DataFrame {A} _ _.

Record store := {
  forecasts : gmap loc (DataFrame ForecastRecord);
  inventories : gmap loc (DataFrame InventoryBatch)
}.

(** Computations that read and update the store. *)
Definition M (R : Type) : Type := store → R * store.

#[global] Instance M_ret : MRet M := λ R x s, (x, s).
#[global] Instance M_bind : MBind M :=
  λ R1 R2 f m s, let '(x, s') := m s in f x s'.

Module Obj.

(** Constructing a frame, reading one and replacing one, for each of the
    two kinds of table. *)
Definition new_forecast (df : DataFrame ForecastRecord) : M loc := λ s,
  let l := fresh (dom (forecasts s)) in
  (l, {| forecasts := <[l := df]> (forecasts s); inventories := inventories s |}).

Definition get_forecast (l : loc) : M (DataFrame ForecastRecord) := λ s,
  (default {| rows := []; date_dtype := object_dtype |} (forecasts s !! l), s).

Definition put_forecast (l : loc) (df : DataFrame ForecastRecord) : M unit := λ s,
  (tt, {| forecasts := <[l := df]> (forecasts s); inventories := inventories s |}).

Definition new_inventory (df : DataFrame InventoryBatch) : M loc := λ s,
  let l := fresh (dom (inventories s)) in
  (l, {| forecasts := forecasts s; inventories := <[l := df]> (inventories s) |}).

Definition get_inventory (l : loc) : M (DataFrame InventoryBatch) := λ s,
  (default {| rows := []; date_dtype := object_dtype |} (inventories s !! l), s).

Definition put_inventory (l : loc) (df : DataFrame InventoryBatch) : M unit := λ s,
  (tt, {| forecasts := forecasts s; inventories := <[l := df]> (inventories s) |}).

(** The methods that return a new frame: [df.copy()] ([f] the identity),
    [df[mask]], [df.sort_values(...)]. *)
Definition forecast_derive (f : list ForecastRecord → list ForecastRecord)
    (df : loc) : M loc :=
  d ← get_forecast df;
  new_forecast {| rows := f (rows d); date_dtype := date_dtype d |}.

Definition inventory_derive (f : list InventoryBatch → list InventoryBatch)
    (df : loc) : M loc :=
  d ← get_inventory df;
  new_inventory {| rows := f (rows d); date_dtype := date_dtype d |}.

(** [df[col] = pd.to_datetime(df[col])]: updates [df] itself. *)
Definition forecast_to_datetime (df : loc) : M unit :=
  d ← get_forecast df;
  put_forecast df {| rows := rows d; date_dtype := datetime64 |}.

Definition inventory_to_datetime (df : loc) : M unit :=
  d ← get_inventory df;
  put_inventory df {| rows := rows d; date_dtype := datetime64 |}.

(** [df.at[idx, INVENTORY_INVENTORY] = v]: updates [df] itself. *)
Definition at_set (df : loc) (idx : nat) (v : Z) : M unit :=
  d ← get_inventory df;
  put_inventory df {| rows := alter (set_inventory v) idx (rows d);
                      date_dtype := date_dtype d |}.

(** Reading the rows of a frame; [iterrows] reads them all before the loop
    body runs and pairs each with its index. *)
Definition forecast_rows (df : loc) : M (list ForecastRecord) :=
  d ← get_forecast df; mret (rows d).

Definition inventory_rows (df : loc) : M (list InventoryBatch) :=
  d ← get_inventory df; mret (rows d).

Definition iterrows (df : loc) : M (list (nat * InventoryBatch)) :=
  r ← inventory_rows df; mret (imap (λ idx inv_row, (idx, inv_row)) r).

(** Lines 70-80 *)
Fixpoint fifo_consume (product_inventory : loc) (demand_to_fulfill : Z)
    (snapshot : list (nat * InventoryBatch)) : M unit :=
  match snapshot with
  | [] => mret tt
  | (idx, inv_row) :: rest =>
      let batch_quantity := inventory inv_row in
      if bool_decide (demand_to_fulfill ≤ batch_quantity)
      then at_set product_inventory idx (batch_quantity - demand_to_fulfill)
      else
        at_set product_inventory idx 0;;
        fifo_consume product_inventory (demand_to_fulfill - batch_quantity) rest
  end.

(** Lines 50-83; the variable [product_inventory] is rebound to a new frame
    in every iteration, and it is that frame the inner loop writes to. *)
Fixpoint forecast_loop (forecast_rows : list ForecastRecord)
    (product_inventory : loc) (days_covered : nat) : M nat :=
  match forecast_rows with
  | [] => mret days_covered
  | forecast_row :: rest =>
      let forecast_date := f_date forecast_row in
      let daily_demand := forecasted_sales forecast_row in
      product_inventory ← inventory_derive (drop_expired forecast_date)
                            product_inventory;
      r ← inventory_rows product_inventory;
      let remaining_inventory := if empty r then 0 else inventory_sum r in
      if bool_decide (daily_demand ≤ remaining_inventory)
      then
        snapshot ← iterrows product_inventory;
        fifo_consume product_inventory daily_demand snapshot;;
        forecast_loop rest product_inventory (S days_covered)
      else mret days_covered
  end.

Section Methods.

Context `{SortValues}.

(** [DFCAlgo._calculate_days_covered] *)
Definition _calculate_days_covered (product_forecast product_inventory : loc)
    (start_date : option timestamp) : M (nat * Z) :=
  product_forecast ← forecast_derive id product_forecast;
  product_inventory ← inventory_derive id product_inventory;
  product_forecast ←
    match start_date with
    | Some d => forecast_derive (filter (λ r, d ≤ f_date r)) product_forecast
    | None => mret product_forecast
    end;
  product_inventory ←
    match start_date with
    | Some d => inventory_derive (filter (λ b, d ≤ expiry_date b)) product_inventory
    | None => mret product_inventory
    end;
  product_inventory ← inventory_derive (sort_values expiry_date) product_inventory;
  product_forecast ← forecast_derive (sort_values f_date) product_forecast;
  inv ← inventory_rows product_inventory;
  fc ← forecast_rows product_forecast;
  let total_inventory := inventory_sum inv in
  if empty inv || empty fc
  then mret (0%nat, total_inventory)
  else
    days_covered ← forecast_loop fc product_inventory 0;
    mret (days_covered, total_inventory).

(** Lines 140-175 *)
Definition product_row (future_forecast valid_inventory : loc) (pid : string)
    : M CoverageResult :=
  product_forecast ←
    forecast_derive (filter (λ r, f_product_id r = pid)) future_forecast
    ≫= forecast_derive id;
  fc ← forecast_rows product_forecast;
  if empty fc
  then mret {| product_id := pid; days_forward_coverage := 0;
               total_inventory := 0; has_forecast := Some false |}
  else
    product_inventory ←
      inventory_derive (filter (λ b, i_product_id b = pid)) valid_inventory
      ≫= inventory_derive id;
    inv ← inventory_rows product_inventory;
    if empty inv
    then mret {| product_id := pid; days_forward_coverage := 0;
                 total_inventory := 0; has_forecast := Some true |}
    else
      '(days_covered, total_inventory) ←
        _calculate_days_covered product_forecast product_inventory None;
      mret {| product_id := pid; days_forward_coverage := days_covered;
              total_inventory := total_inventory; has_forecast := None |}.

(** [DFCAlgo.calculate_dfc] *)
Definition calculate_dfc (forecast_df inventory_df : loc)
    (current_date : option timestamp) : M (list CoverageResult) :=
  forecast_df ← forecast_derive id forecast_df;
  inventory_df ← inventory_derive id inventory_df;
  forecast_to_datetime forecast_df;;
  inventory_to_datetime inventory_df;;
  fc ← forecast_rows forecast_df;
  let current_date := reference_date fc current_date in
  valid_inventory ←
    inventory_derive (filter (λ b, on_or_after current_date (expiry_date b)))
      inventory_df
    ≫= inventory_derive id;
  future_forecast ←
    forecast_derive (filter (λ r, on_or_after current_date (f_date r)))
      forecast_df
    ≫= forecast_derive id;
  future_forecast ← forecast_derive sort_by_product_date future_forecast;
  fc ← forecast_rows future_forecast;
  inv ← inventory_rows valid_inventory;
  mapM (product_row future_forecast valid_inventory)
    (elements (all_products fc inv)).

(** [DFCAlgo.calculate_dfc_over_time] *)
Definition calculate_dfc_over_time (forecast_df inventory_df : loc)
    (pid : string) : M (list CoverageAt) :=
  product_forecast ←
    forecast_derive (filter (λ r, f_product_id r = pid)) forecast_df
    ≫= forecast_derive id;
  product_inventory ←
    inventory_derive (filter (λ b, i_product_id b = pid)) inventory_df
    ≫= inventory_derive id;
  fc ← forecast_rows product_forecast;
  inv ← inventory_rows product_inventory;
  if empty fc || empty inv
  then mret []
  else
    product_forecast ← forecast_derive (sort_values f_date) product_forecast;
    fc ← forecast_rows product_forecast;
    let dates := unique (f_date <$> fc) in
    mapM (λ current_date,
            '(days_covered, total_inventory) ←
              _calculate_days_covered product_forecast product_inventory
                (Some current_date);
            mret {| date := current_date;
                    at_days_forward_coverage := days_covered;
                    at_total_inventory := total_inventory |}) dates.

End Methods.

End Obj.

(** [extends s s']: every frame of [s] is in [s'], unchanged. *)
Definition extends (s s' : store) : Prop :=
  forecasts s ⊆ forecasts s' ∧ inventories s ⊆ inventories s'.

(** [wp m s Q]: run from [s], the computation [m] ends with a result and a
    store that satisfy [Q]. *)
Definition wp {R} (m : M R) (s : store) (Q : R → store → Prop) : Prop :=
  Q (m s).1 (m s).2.


(** ** The driver, [main] of [days_forward_coverage.py]

    What a run prints, line by line, and how it ends.  The two CSV files
    are the rows [read_csv] makes of them, or [None] when the path does not
    exist.  The average is printed from the sum and the count of the
    column; its rounding to two decimals is not modelled. *)

Inductive printed :=
  | DatasetFilesNotFound
  | SavedCoverageData (coverage_df : list CoverageResult)
  | SummaryHeader
  | TotalProductsAnalyzed (n : nat)
  | AverageCoverage (sum count : nat)
  | MinimumCoverage (days : nat)
  | MaximumCoverage (days : nat)
  | LowCoverageCount (n : nat)
  | LowCoverageHead (rows : list CoverageResult)
  | NoInventoryCount (n : nat)
  | NoInventoryRows (rows : list CoverageResult).

Inductive completion := Returns | RaisesKeyError.

(** [Series.min()] and [Series.max()] of a column that has a value. *)
Definition column_min (column : list nat) : nat :=
  match column with
  | [] => 0%nat
  | x :: column' => foldr Nat.min x column'
  end.

Definition column_max (column : list nat) : nat :=
  match column with
  | [] => 0%nat
  | x :: column' => foldr Nat.max x column'
  end.

Section Driver.

Context `{SortValues}.

(** [calculate_dfc(..., save_csv=True)] returns a frame made of the list of
    its rows: from the empty list, a frame that has no column, on which the
    first column access of the summary raises [KeyError]. *)
Definition main (forecast_csv : option (list ForecastRecord))
    (inventory_csv : option (list InventoryBatch)) : list printed * completion :=
  match forecast_csv, inventory_csv with
  | Some forecast_df, Some inventory_df =>
      let coverage_df := calculate_dfc forecast_df inventory_df None in
      let start :=
        [ SavedCoverageData coverage_df; SummaryHeader;
          TotalProductsAnalyzed (length coverage_df) ] in
      if empty coverage_df
      then (start, RaisesKeyError)
      else
        let coverage := days_forward_coverage <$> coverage_df in
        let low_coverage :=
          filter (λ row, (days_forward_coverage row < 7)%nat) coverage_df in
        let no_inventory :=
          filter (λ row, total_inventory row = 0) coverage_df in
        (start
           ++ [ AverageCoverage (sum_list coverage) (length coverage);
                MinimumCoverage (column_min coverage);
                MaximumCoverage (column_max coverage);
                LowCoverageCount (length low_coverage) ]
           ++ (if empty low_coverage then []
               else [LowCoverageHead (take 10 low_coverage)])
           ++ [ NoInventoryCount (length no_inventory) ]
           ++ (if negb (empty no_inventory)
                  && bool_decide (length no_inventory ≤ 10)%nat
               then [NoInventoryRows no_inventory]
               else []),
         Returns)
  | _, _ => ([DatasetFilesNotFound], Returns)
  end.

End Driver.

(** ** [Datasets.generate_product_ids] of [helpers/datasets.py] *)

Fixpoint zeros (n : nat) : string :=
  match n with
  | O => ""
  | S n' => String "0"%char (zeros n')
  end.

(** [f"{i:04d}"]: the decimal digits of [i], with zeros in front up to a
    width of four. *)
Definition format_04d (i : nat) : string :=
  let digits := NilZero.string_of_uint (Nat.to_uint i) in
  zeros (4 - String.length digits) +:+ digits.

Definition generate_product_ids (num_products : nat) : list string :=
  (λ i, "P" +:+ format_04d i) <$> seq 1 num_products.

(** ** The sidebar filters of [dashboard.py], lines 209-226

    [None]: the conversion [int(...)] of the minimum of a column without
    value, or the access to a column the frame does not have, raises. *)
Definition filtered_coverage (coverage_df : list CoverageResult)
    (selected_products : list string) : option (list CoverageResult) :=
  if empty coverage_df then None
  else
    let coverage := days_forward_coverage <$> coverage_df in
    let min_coverage := column_min coverage in
    let max_coverage := column_max coverage in
    let filtered_coverage :=
      filter (λ row, (min_coverage ≤ days_forward_coverage row)%nat
                     ∧ (days_forward_coverage row ≤ max_coverage)%nat)
        coverage_df in
    Some (if empty selected_products then filtered_coverage
          else filter (λ row, product_id row ∈ selected_products)
                 filtered_coverage).

(** ** The coverage count, in the words of the specification

    The records of one product in ascending date order, its batches in
    ascending expiry order.  Serving a record removes the batches that
    expired strictly before its date and depletes the rest first-in
    first-out by its demand. *)

Definition serve (batches : list InventoryBatch) (r : ForecastRecord)
    : list InventoryBatch :=
  fifo_consume (forecasted_sales r) (drop_expired (f_date r) batches).

(** The stock left by the records served so far. *)
Definition stock_after (earlier : list ForecastRecord)
    (batches : list InventoryBatch) : list InventoryBatch :=
  foldl serve batches earlier.

(** The stock that has not expired on the day of [r] meets its demand. *)
Definition demand_met (batches : list InventoryBatch) (r : ForecastRecord) : Prop :=
  forecasted_sales r ≤ inventory_sum (drop_expired (f_date r) batches).

(** Every one of the first [n] records finds its demand met by what the
    records before it have left. *)
Definition covered_prefix (records : list ForecastRecord)
    (batches : list InventoryBatch) (n : nat) : Prop :=
  ∀ i r, (i < n)%nat → records !! i = Some r →
    demand_met (stock_after (take i records) batches) r.

Definition longest_covered_prefix (records : list ForecastRecord)
    (batches : list InventoryBatch) (n : nat) : Prop :=
  (n ≤ length records)%nat ∧
  covered_prefix records batches n ∧
  ∀ k, (k ≤ length records)%nat → covered_prefix records batches k → (k ≤ n)%nat.

(** The stock on hand that expires on or after [d]. *)
Definition stock_from (d : timestamp) (batches : list InventoryBatch) : Z :=
  inventory_sum (filter (λ b, d ≤ expiry_date b) batches).

Abbreviation by_expiry := (λ a b : InventoryBatch, expiry_date a ≤ expiry_date b).
Abbreviation non_negative := (Forall (λ b : InventoryBatch, 0 ≤ inventory b)).

(** A forecast in which a product has no two different records for the same
    date. *)
Definition one_record_per_day (forecast_df : list ForecastRecord) : Prop :=
  ∀ r1 r2, r1 ∈ forecast_df → r2 ∈ forecast_df →
    f_product_id r1 = f_product_id r2 → f_date r1 = f_date r2 → r1 = r2.



(** ** A sorter to compute with, and the scenarios of the specification *)

Definition insertion_sort : SortValues.
Proof.
  refine {| sort_values A key :=
              stable_sort (λ x y, bool_decide (key x ≤ key y)) |}.
  - intros A key df. induction df as [|x df IH]; simpl; [done|].
    rewrite <- IH at 2. generalize (stable_sort (λ x y, bool_decide (key x ≤ key y)) df).
    intros l. induction l as [|y l IHl]; simpl; [done|].
    case_bool_decide; [done|]. rewrite IHl. apply Permutation_swap.
  - intros A key df. induction df as [|x df IH]; simpl; [constructor|].
    revert IH. generalize (stable_sort (λ x y, bool_decide (key x ≤ key y)) df).
    intros l. induction l as [|y l IHl]; simpl; intros Hl.
    + repeat constructor.
    + apply StronglySorted_cons in Hl as [Hy Hl]. case_bool_decide as Hxy.
      * apply StronglySorted_cons. split.
        -- constructor; [done|]. eapply Forall_impl; [exact Hy|].
           simpl. intros; lia.
        -- by apply StronglySorted_cons.
      * apply StronglySorted_cons. split; [|by apply IHl].
        assert (Hperm : insert_by (λ x y, bool_decide (key x ≤ key y)) x l ≡ₚ x :: l).
        { clear. induction l as [|z l IHl]; simpl; [done|].
          case_bool_decide; [done|]. rewrite IHl. apply Permutation_swap. }
        rewrite Hperm. constructor; [lia|done].
Defined.

(** Five units a day from 2024-01-01 to 2024-01-03 for product P0001. *)
Definition scenario_forecast : list ForecastRecord :=
  [ {| f_product_id := "P0001"; f_date := ymd 2024 1 1; forecasted_sales := 5 |};
    {| f_product_id := "P0001"; f_date := ymd 2024 1 2; forecasted_sales := 5 |};
    {| f_product_id := "P0001"; f_date := ymd 2024 1 3; forecasted_sales := 5 |} ].

(** One batch of twelve units. *)
Definition scenario_batch (expiry : timestamp) : InventoryBatch :=
  {| i_product_id := "P0001"; batch_id := "P0001_B1";
     expiry_date := expiry; inventory := 12 |}.

(** Inputs in which two products are left with nothing on the reference
    date: P0002 has one batch, expired before it, and P0003 one forecast
    record, dated before it. *)
Definition stale_forecast : list ForecastRecord :=
  scenario_forecast ++
  [ {| f_product_id := "P0003"; f_date := ymd 2023 12 30; forecasted_sales := 4 |} ].

Definition stale_inventory : list InventoryBatch :=
  [ scenario_batch (ymd 2024 1 5);
    {| i_product_id := "P0002"; batch_id := "P0002_B1";
       expiry_date := ymd 2023 12 31; inventory := 7 |} ].

(** A store with the tables of scenario A as the caller holds them, read
    from their CSV files. *)
Definition caller_store : store :=
  {| forecasts := {[ 1%positive := {| rows := scenario_forecast;
                                      date_dtype := object_dtype |} ]};
     inventories := {[ 1%positive := {| rows := [scenario_batch (ymd 2024 1 5)];
                                        date_dtype := object_dtype |} ]} |}.

(** * Properties *)

(** ** Frames as lists *)

Lemma empty_false {A} (df : list A) : empty df = false ↔ df ≠ [].
Proof. by destruct df. Qed.



Lemma inventory_sum_app df1 df2 :
  inventory_sum (df1 ++ df2) = inventory_sum df1 + inventory_sum df2.
Proof. induction df1 as [|b df1 IH]; simpl; lia. Qed.

Lemma inventory_sum_perm df1 df2 :
  df1 ≡ₚ df2 → inventory_sum df1 = inventory_sum df2.
Proof. induction 1; simpl; lia. Qed.


Lemma remaining_inventory_sum df :
  (if empty df then 0 else inventory_sum df) = inventory_sum df.
Proof. by destruct df. Qed.

Lemma Forall_filter_2 {A} (P Q : A → Prop) `{∀ x, Decision (P x)} (l : list A) :
  Forall Q l → Forall Q (filter P l).
Proof.
  rewrite !Forall_forall. intros Hq x [_ Hx]%list_elem_of_filter. auto.
Qed.

Lemma insert_by_perm {A} (le : A → A → bool) x l : insert_by le x l ≡ₚ x :: l.
Proof.
  induction l as [|y l IH]; simpl; [done|].
  destruct (le x y); [done|]. rewrite IH. apply Permutation_swap.
Qed.

Lemma stable_sort_perm {A} (le : A → A → bool) l : stable_sort le l ≡ₚ l.
Proof.
  induction l as [|x l IH]; simpl; [done|].
  by rewrite insert_by_perm, IH.
Qed.

Lemma sort_by_product_date_perm df : sort_by_product_date df ≡ₚ df.
Proof. apply stable_sort_perm. Qed.

(** ** The loop over the forecast rows *)

Lemma loop_body_covered r s :
  demand_met (product_inventory s) r →
  loop_body r s =
    (Continue, {| days_covered := S (days_covered s);
                  product_inventory := serve (product_inventory s) r |}).
Proof.
  unfold demand_met, loop_body, serve. intros Hmet.
  rewrite remaining_inventory_sum. by rewrite bool_decide_eq_true_2.
Qed.

Lemma loop_body_shortfall r s :
  ¬ demand_met (product_inventory s) r →
  loop_body r s =
    (Break, {| days_covered := days_covered s;
               product_inventory := drop_expired (f_date r) (product_inventory s) |}).
Proof.
  unfold demand_met, loop_body. intros Hmet.
  rewrite remaining_inventory_sum. by rewrite bool_decide_eq_false_2.
Qed.

Lemma demand_met_dec batches r : Decision (demand_met batches r).
Proof. unfold demand_met. apply _. Qed.

Lemma covered_prefix_0 records batches : covered_prefix records batches 0.
Proof. intros i r Hi. lia. Qed.

Lemma covered_prefix_cons r rest batches k :
  covered_prefix (r :: rest) batches (S k) ↔
  demand_met batches r ∧ covered_prefix rest (serve batches r) k.
Proof.
  split.
  - intros Hc. split.
    + by apply (Hc 0%nat r); [lia|].
    + intros i r' Hi Hr'. apply (Hc (S i) r'); [lia|done].
  - intros [Hmet Hc] [|i] r' Hi Hr'.
    + by injection Hr' as <-.
    + apply (Hc i r'); [lia|done].
Qed.

Lemma forecast_loop_longest records s :
  ∃ n, days_covered (forecast_loop records s) = (days_covered s + n)%nat ∧
       longest_covered_prefix records (product_inventory s) n.
Proof.
  revert s. induction records as [|r rest IH]; intros s; simpl.
  - exists 0%nat. split; [lia|]. split; [done|]. split; [apply covered_prefix_0|].
    simpl. intros; lia.
  - destruct (demand_met_dec (product_inventory s) r) as [Hmet|Hmet].
    + rewrite loop_body_covered by done.
      destruct (IH {| days_covered := S (days_covered s);
                      product_inventory := serve (product_inventory s) r |})
        as (n & Hn & Hlen & Hcov & Hmax); simpl in *.
      exists (S n). split; [lia|]. split; [simpl; lia|]. split.
      * by apply covered_prefix_cons.
      * intros [|k] Hk Hc; [lia|]. simpl in Hk.
        apply covered_prefix_cons in Hc as [_ Hc].
        apply le_n_S, Hmax; [lia|done].
    + rewrite loop_body_shortfall by done.
      exists 0%nat. split; [simpl; lia|]. split; [lia|].
      split; [apply covered_prefix_0|].
      intros [|k] Hk Hc; [lia|].
      by apply covered_prefix_cons in Hc as [? _].
Qed.


(** ** The per-product simulation and the coverage table *)

Section EngineFacts.

Context `{SortValues}.

Lemma prepare_forecast_perm pf start :
  prepare_forecast pf start
    ≡ₚ match start with Some d => filter (λ r, d ≤ f_date r) pf | None => pf end.
Proof. apply sort_values_perm. Qed.

Lemma prepare_inventory_perm pi start :
  prepare_inventory pi start
    ≡ₚ match start with Some d => filter (λ b, d ≤ expiry_date b) pi | None => pi end.
Proof. apply sort_values_perm. Qed.

Lemma calculate_days_covered_total pf pi start :
  (_calculate_days_covered pf pi start).2 = inventory_sum (prepare_inventory pi start).
Proof. unfold _calculate_days_covered. by case_match. Qed.

Lemma calculate_days_covered_empty pf pi start :
  prepare_forecast pf start = [] ∨ prepare_inventory pi start = [] →
  (_calculate_days_covered pf pi start).1 = 0%nat.
Proof.
  unfold _calculate_days_covered. intros [Hempty|Hempty]; rewrite Hempty; [|done].
  by rewrite orb_true_r.
Qed.

Lemma calculate_days_covered_loop pf pi start :
  prepare_forecast pf start ≠ [] → prepare_inventory pi start ≠ [] →
  (_calculate_days_covered pf pi start).1 =
    days_covered (forecast_loop (prepare_forecast pf start)
                    {| days_covered := 0;
                       product_inventory := prepare_inventory pi start |}).
Proof.
  intros Hf%empty_false Hi%empty_false. unfold _calculate_days_covered.
  by rewrite Hf, Hi.
Qed.

Lemma calculate_days_covered_longest pf pi start :
  prepare_forecast pf start ≠ [] → prepare_inventory pi start ≠ [] →
  longest_covered_prefix (prepare_forecast pf start) (prepare_inventory pi start)
    (_calculate_days_covered pf pi start).1.
Proof.
  intros Hf Hi. rewrite calculate_days_covered_loop by done.
  destruct (forecast_loop_longest (prepare_forecast pf start)
              {| days_covered := 0;
                 product_inventory := prepare_inventory pi start |})
    as (n & Hn & Hlong). simpl in *. by rewrite Hn.
Qed.

Lemma future_forecast_perm forecast_df current_date :
  future_forecast forecast_df current_date
    ≡ₚ filter (λ r, on_or_after current_date (f_date r)) forecast_df.
Proof. apply sort_by_product_date_perm. Qed.

Lemma product_row_id ff vi pid : product_id (product_row ff vi pid) = pid.
Proof.
  unfold product_row. repeat case_match; done.
Qed.

Lemma elem_of_all_products ff vi pid :
  pid ∈ all_products ff vi ↔
  (∃ r, r ∈ ff ∧ f_product_id r = pid) ∨ (∃ b, b ∈ vi ∧ i_product_id b = pid).
Proof.
  unfold all_products.
  rewrite elem_of_union, !elem_of_list_to_set, !list_elem_of_fmap.
  naive_solver.
Qed.

(** The rows of a table built from a duplicate-free list of keys. *)
Lemma filter_keyed_rows {B} (f : string → B) (g : B → string) (keys : list string) pid :
  (∀ k, g (f k) = k) → NoDup keys →
  filter (λ row, g row = pid) (f <$> keys) = if decide (pid ∈ keys) then [f pid] else [].
Proof.
  intros Hg. induction 1 as [|k keys Hk Hnd IH].
  - by destruct (decide (pid ∈ [])) as [?%elem_of_nil|].
  - rewrite fmap_cons, filter_cons, Hg, IH. destruct (decide (k = pid)) as [->|Hne].
    + rewrite decide_False by done. by rewrite decide_True by set_solver.
    + destruct (decide (pid ∈ keys)).
      * by rewrite decide_True by set_solver.
      * by rewrite decide_False by set_solver.
Qed.

Lemma calculate_dfc_rows_of forecast_df inventory_df current_date pid :
  let ref := reference_date forecast_df current_date in
  let ff := future_forecast forecast_df ref in
  let vi := valid_inventory inventory_df ref in
  filter (λ row, product_id row = pid)
    (calculate_dfc forecast_df inventory_df current_date)
  = if decide (pid ∈ all_products ff vi) then [product_row ff vi pid] else [].
Proof.
  intros ref ff vi. unfold calculate_dfc. fold ref. fold vi. fold ff.
  rewrite (filter_keyed_rows (product_row ff vi) product_id).
  - destruct (decide (pid ∈ all_products ff vi)) as [Hin|Hin].
    + by rewrite decide_True by by apply elem_of_elements.
    + by rewrite decide_False by by rewrite elem_of_elements.
  - apply product_row_id.
  - apply NoDup_elements.
Qed.

(** A product is in the set of line 135 when it has a forecast record or a
    batch that passes the filter on the reference date. *)
Lemma elem_of_all_products_inputs forecast_df inventory_df ref pid :
  pid ∈ all_products (future_forecast forecast_df ref) (valid_inventory inventory_df ref)
  ↔ (∃ r, r ∈ forecast_df ∧ f_product_id r = pid ∧ on_or_after ref (f_date r))
    ∨ (∃ b, b ∈ inventory_df ∧ i_product_id b = pid ∧ on_or_after ref (expiry_date b)).
Proof.
  rewrite elem_of_all_products. unfold valid_inventory.
  setoid_rewrite future_forecast_perm.
  setoid_rewrite list_elem_of_filter. naive_solver.
Qed.

Lemma product_forecast_perm forecast_df ref pid :
  filter (λ r, f_product_id r = pid) (future_forecast forecast_df ref)
    ≡ₚ filter (λ r, f_product_id r = pid)
         (filter (λ r, on_or_after ref (f_date r)) forecast_df).
Proof. by rewrite future_forecast_perm. Qed.

Lemma nonempty_elem {A} (l : list A) : l ≠ [] ↔ ∃ x, x ∈ l.
Proof.
  destruct l as [|x l]; split; try done.
  - by intros [x Hx%elem_of_nil].
  - intros _. exists x. left.
Qed.


End EngineFacts.

(** ** Stock by expiry date

    What the simulation observes of a stock is, for each date, the quantity
    that expires on or after it; the order of batches that expire on the
    same day does not show. *)

Lemma stock_from_cons d b batches :
  stock_from d (b :: batches) =
    (if decide (d ≤ expiry_date b) then inventory b else 0) + stock_from d batches.
Proof.
  unfold stock_from. rewrite filter_cons. by destruct (decide (d ≤ expiry_date b)).
Qed.

Lemma stock_from_app d l1 l2 :
  stock_from d (l1 ++ l2) = stock_from d l1 + stock_from d l2.
Proof. unfold stock_from. by rewrite filter_app, inventory_sum_app. Qed.

Lemma stock_from_perm d l1 l2 : l1 ≡ₚ l2 → stock_from d l1 = stock_from d l2.
Proof. intros Hp. unfold stock_from. apply inventory_sum_perm. by rewrite Hp. Qed.

Lemma stock_from_nonneg d batches : non_negative batches → 0 ≤ stock_from d batches.
Proof.
  induction 1 as [|b batches Hb _ IH]; [done|].
  rewrite stock_from_cons. case_decide; lia.
Qed.




Lemma stock_from_submseteq d l1 l2 :
  l1 ⊆+ l2 → non_negative l2 → stock_from d l1 ≤ stock_from d l2.
Proof.
  intros [k Hk]%submseteq_Permutation Hnn.
  rewrite (stock_from_perm d _ _ Hk), stock_from_app.
  rewrite Hk in Hnn. apply Forall_app in Hnn as [_ Hnn].
  pose proof (stock_from_nonneg d k Hnn). lia.
Qed.













Section Monotone.

Context `{SortValues}.






End Monotone.

(** ** What one depletion does to the batches *)




(** ** [unique] on a sorted column *)

Lemma unique_elem x l : x ∈ unique l ↔ x ∈ l.
Proof.
  induction l as [|y l IH]; simpl; [done|].
  rewrite !elem_of_cons, list_elem_of_filter, IH.
  destruct (decide (x = y)); naive_solver.
Qed.

Lemma StronglySorted_filter {A} (R : relation A) (P : A → Prop)
    `{∀ x, Decision (P x)} (l : list A) :
  StronglySorted R l → StronglySorted R (filter P l).
Proof.
  induction 1 as [|x l Hs IH Hx]; [constructor|].
  rewrite filter_cons. case_decide; [|done].
  constructor; [done|]. by apply Forall_filter_2.
Qed.

Lemma unique_sorted l : StronglySorted Z.le l → StronglySorted Z.lt (unique l).
Proof.
  induction 1 as [|x l Hs IH Hx]; simpl; [constructor|].
  constructor; [by apply StronglySorted_filter|].
  apply Forall_forall. intros y [Hne Hy]%list_elem_of_filter.
  rewrite unique_elem in Hy. rewrite Forall_forall in Hx. specialize (Hx y Hy). lia.
Qed.

(** ** Sorting a column whose values are distinct and in order *)

Lemma strictly_sorted_key_inj {A} (key : A → Z) (l : list A) x y :
  StronglySorted (λ a b, key a < key b) l → x ∈ l → y ∈ l → key x = key y → x = y.
Proof.
  induction 1 as [|z l Hs IH Hz]; [by intros ?%elem_of_nil|].
  rewrite Forall_forall in Hz.
  intros [->|Hx]%elem_of_cons [->|Hy]%elem_of_cons Hk; auto.
  - specialize (Hz y Hy). lia.
  - specialize (Hz x Hx). lia.
Qed.

Lemma sort_values_in_order `{SortValues} {A} (key : A → Z) (l : list A) :
  StronglySorted (λ a b, key a < key b) l → sort_values key l = l.
Proof.
  intros Hl. apply (StronglySorted_unique_strong (λ a b, key a ≤ key b)).
  - intros x1 x2 Hx1 Hx2 H1 H2. rewrite sort_values_perm in Hx1.
    apply (strictly_sorted_key_inj key l); [done..|lia].
  - apply sort_values_sorted.
  - eapply StronglySorted_fmap with (f := id) in Hl.
    + by rewrite list_fmap_id in Hl.
    + simpl. intros; lia.
  - apply sort_values_perm.
Qed.

(** ** The default reference date *)

Lemma min_date_spec forecast_df :
  forecast_df ≠ [] →
  ∃ m, min_date forecast_df = Some m ∧
       (∃ r, r ∈ forecast_df ∧ f_date r = m) ∧
       ∀ r, r ∈ forecast_df → m ≤ f_date r.
Proof.
  induction forecast_df as [|r0 df IH]; [done|]. intros _. simpl.
  destruct df as [|r1 df].
  - simpl. exists (f_date r0). split; [done|]. split.
    + exists r0. split; [left|done].
    + intros r ->%list_elem_of_singleton. lia.
  - destruct IH as (m & -> & (rm & Hrm & Hm) & Hmin); [done|].
    exists (Z.min (f_date r0) m). split; [done|]. split.
    + destruct (Z.min_spec (f_date r0) m) as [[_ ->]|[_ ->]].
      * exists r0. split; [left|done].
      * exists rm. split; [by right|done].
    + intros r [->|Hr]%elem_of_cons; [lia|]. specialize (Hmin r Hr). lia.
Qed.

(** ** The object layer *)

Lemma extends_refl s : extends s s.
Proof. by split. Qed.

Lemma extends_trans s1 s2 s3 : extends s1 s2 → extends s2 s3 → extends s1 s3.
Proof. intros [? ?] [? ?]. split; by etrans. Qed.

Lemma extends_forecast s s' l df :
  extends s s' → forecasts s !! l = Some df → forecasts s' !! l = Some df.
Proof. intros [Hf _] Hl. by eapply lookup_weaken. Qed.

Lemma extends_inventory s s' l df :
  extends s s' → inventories s !! l = Some df → inventories s' !! l = Some df.
Proof. intros [_ Hi] Hl. by eapply lookup_weaken. Qed.

Lemma wp_ret {R} (x : R) s Q : Q x s → wp (mret x) s Q.
Proof. done. Qed.

Lemma wp_bind {R1 R2} (m : M R1) (f : R1 → M R2) s Q :
  wp m s (λ x s', wp (f x) s' Q) → wp (m ≫= f) s Q.
Proof. unfold wp, mbind, M_bind. by destruct (m s). Qed.

Lemma wp_mono {R} (m : M R) s (Q Q' : R → store → Prop) :
  wp m s Q → (∀ x s', Q x s' → Q' x s') → wp m s Q'.
Proof. unfold wp. auto. Qed.

Section ObjectFacts.

Lemma wp_forecast_derive f l s df Q :
  forecasts s !! l = Some df →
  (∀ l' s', forecasts s !! l' = None →
            forecasts s' !! l' = Some {| rows := f (rows df); date_dtype := date_dtype df |} →
            extends s s' → Q l' s') →
  wp (Obj.forecast_derive f l) s Q.
Proof.
  intros Hl HQ. unfold wp, Obj.forecast_derive, mbind, M_bind, Obj.get_forecast, Obj.new_forecast.
  simpl. rewrite Hl. simpl.
  assert (Hfresh : forecasts s !! fresh (dom (forecasts s)) = None)
    by apply not_elem_of_dom, is_fresh.
  apply HQ; [done|simpl; apply lookup_insert_eq|].
  split; simpl; [by apply insert_subseteq|done].
Qed.

Lemma wp_inventory_derive f l s df Q :
  inventories s !! l = Some df →
  (∀ l' s', inventories s !! l' = None →
            inventories s' !! l' = Some {| rows := f (rows df); date_dtype := date_dtype df |} →
            extends s s' → Q l' s') →
  wp (Obj.inventory_derive f l) s Q.
Proof.
  intros Hl HQ. unfold wp, Obj.inventory_derive, mbind, M_bind, Obj.get_inventory, Obj.new_inventory.
  simpl. rewrite Hl. simpl.
  assert (Hfresh : inventories s !! fresh (dom (inventories s)) = None)
    by apply not_elem_of_dom, is_fresh.
  apply HQ; [done|simpl; apply lookup_insert_eq|].
  split; simpl; [done|by apply insert_subseteq].
Qed.

Lemma wp_forecast_rows l s df Q :
  forecasts s !! l = Some df → Q (rows df) s → wp (Obj.forecast_rows l) s Q.
Proof.
  intros Hl HQ. unfold wp, Obj.forecast_rows, mbind, M_bind, Obj.get_forecast. simpl.
  by rewrite Hl.
Qed.

Lemma wp_inventory_rows l s df Q :
  inventories s !! l = Some df → Q (rows df) s → wp (Obj.inventory_rows l) s Q.
Proof.
  intros Hl HQ. unfold wp, Obj.inventory_rows, mbind, M_bind, Obj.get_inventory. simpl.
  by rewrite Hl.
Qed.

Lemma wp_iterrows l s df Q :
  inventories s !! l = Some df →
  Q (imap (λ idx inv_row, (idx, inv_row)) (rows df)) s → wp (Obj.iterrows l) s Q.
Proof.
  intros Hl HQ. unfold Obj.iterrows. apply wp_bind.
  eapply wp_inventory_rows; [done|]. by apply wp_ret.
Qed.

(** The in-place updates, on a frame that the store [s0] does not hold. *)
Lemma wp_forecast_to_datetime l s0 s df Q :
  extends s0 s → forecasts s0 !! l = None → forecasts s !! l = Some df →
  (∀ s', extends s0 s' →
         forecasts s' !! l = Some {| rows := rows df; date_dtype := datetime64 |} →
         inventories s' = inventories s → Q tt s') →
  wp (Obj.forecast_to_datetime l) s Q.
Proof.
  intros [Hf Hi] Hnew Hl HQ.
  unfold wp, Obj.forecast_to_datetime, mbind, M_bind, Obj.get_forecast, Obj.put_forecast.
  simpl. rewrite Hl. simpl. apply HQ; simpl; [|apply lookup_insert_eq|done].
  split; simpl; [by apply insert_subseteq_r|done].
Qed.

Lemma wp_inventory_to_datetime l s0 s df Q :
  extends s0 s → inventories s0 !! l = None → inventories s !! l = Some df →
  (∀ s', extends s0 s' →
         inventories s' !! l = Some {| rows := rows df; date_dtype := datetime64 |} →
         forecasts s' = forecasts s → Q tt s') →
  wp (Obj.inventory_to_datetime l) s Q.
Proof.
  intros [Hf Hi] Hnew Hl HQ.
  unfold wp, Obj.inventory_to_datetime, mbind, M_bind, Obj.get_inventory, Obj.put_inventory.
  simpl. rewrite Hl. simpl. apply HQ; simpl; [|apply lookup_insert_eq|done].
  split; simpl; [done|by apply insert_subseteq_r].
Qed.

Lemma wp_at_set l idx v s0 s df Q :
  extends s0 s → inventories s0 !! l = None → inventories s !! l = Some df →
  (∀ s', extends s0 s' →
         inventories s' !! l = Some {| rows := alter (set_inventory v) idx (rows df);
                                       date_dtype := date_dtype df |} →
         forecasts s' = forecasts s → Q tt s') →
  wp (Obj.at_set l idx v) s Q.
Proof.
  intros [Hf Hi] Hnew Hl HQ.
  unfold wp, Obj.at_set, mbind, M_bind, Obj.get_inventory, Obj.put_inventory.
  simpl. rewrite Hl. simpl. apply HQ; simpl; [|apply lookup_insert_eq|done].
  split; simpl; [done|by apply insert_subseteq_r].
Qed.

(** The inner loop writes to the frame what [fifo_consume] computes from its
    rows: the rows before the one being visited have been written and are not
    touched again. *)
Lemma wp_fifo_consume l d suffix : ∀ seen s0 s dt Q,
  extends s0 s → inventories s0 !! l = None →
  inventories s !! l = Some {| rows := seen ++ suffix; date_dtype := dt |} →
  (∀ s', extends s0 s' →
         inventories s' !! l
           = Some {| rows := seen ++ fifo_consume d suffix; date_dtype := dt |} →
         forecasts s' = forecasts s → Q tt s') →
  wp (Obj.fifo_consume l d (imap (λ idx inv_row, ((length seen + idx)%nat, inv_row)) suffix))
     s Q.
Proof.
  revert d. induction suffix as [|b suffix IH]; intros d seen s0 s dt Q Hext Hnew Hl HQ.
  - simpl. apply wp_ret. by apply HQ.
  - rewrite imap_cons. cbn [Obj.fifo_consume]. cbn [fifo_consume] in HQ.
    case_bool_decide.
    + eapply wp_at_set; [done..|]. simpl. intros s' Hext' Hl' Hfc.
      rewrite alter_app_r in Hl'. simpl in Hl'. by apply HQ.
    + apply wp_bind. eapply wp_at_set; [done..|]. simpl. intros s' Hext' Hl' Hfc.
      rewrite alter_app_r in Hl'. simpl in Hl'.
      rewrite (imap_ext _ (λ idx inv_row, ((length (seen ++ [set_inventory 0 b]) + idx)%nat, inv_row))).
      2:{ intros i x _. simpl. rewrite length_app. simpl. f_equal. lia. }
      apply (IH _ _ s0 s' dt); [done|done| |].
      * by rewrite <- app_assoc.
      * intros s'' Hext'' Hl'' Hfc''. apply HQ; [done| |congruence].
        by rewrite <- app_assoc in Hl''.
Qed.

Lemma wp_forecast_loop fc : ∀ l days s df Q,
  inventories s !! l = Some df →
  (∀ s', extends s s' →
         Q (days_covered (forecast_loop fc
              {| days_covered := days; product_inventory := rows df |})) s') →
  wp (Obj.forecast_loop fc l days) s Q.
Proof.
  induction fc as [|r fc IH]; intros l days s df Q Hl HQ.
  - simpl. apply wp_ret. apply HQ, extends_refl.
  - cbn [Obj.forecast_loop]. cbn [forecast_loop] in HQ.
    unfold loop_body in HQ. cbn [product_inventory days_covered] in HQ.
    apply wp_bind.
    eapply wp_inventory_derive; [done|]. intros l1 s1 Hnew1 Hl1 Hext1.
    apply wp_bind. eapply wp_inventory_rows; [done|]. cbn [rows].
    case_bool_decide.
    + apply wp_bind. eapply wp_iterrows; [done|]. cbn [rows].
      apply wp_bind.
      eapply (wp_fifo_consume l1 _ _ [] s s1); [done|done|done|].
      intros s2 Hext2 Hl2 Hfc2. simpl in Hl2.
      eapply IH; [done|]. cbn [rows].
      intros s3 Hext3. apply HQ. by eapply extends_trans.
    + apply wp_ret. by apply HQ.
Qed.

End ObjectFacts.

(** Carrying what is known of a store to the stores that extend it. *)
Ltac wp_chain :=
  repeat match goal with
  | H1 : extends ?a ?b, H2 : extends ?b ?c |- _ =>
      lazymatch goal with
      | _ : extends a c |- _ => fail
      | _ => pose proof (extends_trans a b c H1 H2)
      end
  end.

Ltac wp_transport :=
  repeat match goal with
  | Hext : extends ?s ?s', Hl : forecasts ?s !! ?l = Some ?df |- _ =>
      lazymatch goal with
      | _ : forecasts s' !! l = Some _ |- _ => fail
      | _ => pose proof (extends_forecast s s' l df Hext Hl)
      end
  | Hext : extends ?s ?s', Hl : inventories ?s !! ?l = Some ?df |- _ =>
      lazymatch goal with
      | _ : inventories s' !! l = Some _ |- _ => fail
      | _ => pose proof (extends_inventory s s' l df Hext Hl)
      end
  end.

Ltac wp_derive :=
  first [eapply wp_forecast_derive | eapply wp_inventory_derive];
  [eassumption|]; intros ? ? ? ? ?; cbn [rows date_dtype] in *;
  wp_chain; wp_transport.

Ltac wp_rows :=
  apply wp_bind;
  first [eapply wp_forecast_rows | eapply wp_inventory_rows];
  [eassumption|]; cbn [rows date_dtype].

Section MethodFacts.

Context `{SortValues}.

Lemma wp_calculate_days_covered pf pi start s F I Q :
  forecasts s !! pf = Some F → inventories s !! pi = Some I →
  (∀ s', extends s s' → Q (_calculate_days_covered (rows F) (rows I) start) s') →
  wp (Obj._calculate_days_covered pf pi start) s Q.
Proof.
  intros HF HI HQ. unfold Obj._calculate_days_covered, _calculate_days_covered in *.
  unfold prepare_inventory, prepare_forecast in HQ.
  apply wp_bind. wp_derive. apply wp_bind. wp_derive.
  destruct start as [d|].
  - apply wp_bind. wp_derive. apply wp_bind. wp_derive.
    apply wp_bind. wp_derive. apply wp_bind. wp_derive.
    wp_rows. wp_rows. unfold id in *.
    destruct (empty _ || empty _).
    + apply wp_ret. by apply HQ.
    + apply wp_bind. eapply wp_forecast_loop; [eassumption|].
      intros sf Hsf. apply wp_ret. cbn [rows]. wp_chain. by apply HQ.
  - apply wp_bind, wp_ret. apply wp_bind, wp_ret.
    apply wp_bind. wp_derive. apply wp_bind. wp_derive.
    wp_rows. wp_rows. unfold id in *.
    destruct (empty _ || empty _).
    + apply wp_ret. by apply HQ.
    + apply wp_bind. eapply wp_forecast_loop; [eassumption|].
      intros sf Hsf. apply wp_ret. cbn [rows]. wp_chain. by apply HQ.
Qed.

Lemma wp_product_row ff vi pid s FF VI Q :
  forecasts s !! ff = Some FF → inventories s !! vi = Some VI →
  (∀ s', extends s s' → Q (product_row (rows FF) (rows VI) pid) s') →
  wp (Obj.product_row ff vi pid) s Q.
Proof.
  intros HF HI HQ. unfold Obj.product_row, product_row in *.
  apply wp_bind, wp_bind. wp_derive. wp_derive. wp_rows. unfold id in *.
  destruct (empty (filter _ (rows FF))).
  { apply wp_ret. by apply HQ. }
  apply wp_bind, wp_bind. wp_derive. wp_derive. wp_rows. unfold id in *.
  destruct (empty (filter _ (rows VI))).
  { apply wp_ret. by apply HQ. }
  apply wp_bind. eapply wp_calculate_days_covered; [eassumption..|].
  cbn [rows]. intros sf Hsf.
  destruct (_calculate_days_covered _ _ None). apply wp_ret. wp_chain. by apply HQ.
Qed.

Lemma wp_mapM {A B} (f : A → M B) (g : A → B) l : ∀ s Q,
  (∀ x s1 Q', extends s s1 → (∀ s2, extends s1 s2 → Q' (g x) s2) → wp (f x) s1 Q') →
  (∀ s', extends s s' → Q (g <$> l) s') →
  wp (mapM f l) s Q.
Proof.
  induction l as [|x l IH]; intros s Q Hf HQ.
  - apply wp_ret, HQ, extends_refl.
  - cbn [mapM]. apply wp_bind. apply Hf; [apply extends_refl|]. intros s1 Hs1.
    apply wp_bind. apply IH.
    + intros y s2 Q' Hs2 HQ'. apply Hf; [by eapply extends_trans|done].
    + intros s2 Hs2. apply wp_ret. apply HQ. by eapply extends_trans.
Qed.

Lemma extends_fresh_forecast s0 s l :
  extends s0 s → forecasts s !! l = None → forecasts s0 !! l = None.
Proof. intros [Hf _] Hl. by eapply lookup_weaken_None. Qed.

Lemma extends_fresh_inventory s0 s l :
  extends s0 s → inventories s !! l = None → inventories s0 !! l = None.
Proof. intros [_ Hi] Hl. by eapply lookup_weaken_None. Qed.

Lemma wp_calculate_dfc forecast_df inventory_df current_date s F I Q :
  forecasts s !! forecast_df = Some F → inventories s !! inventory_df = Some I →
  (∀ s', extends s s' → Q (calculate_dfc (rows F) (rows I) current_date) s') →
  wp (Obj.calculate_dfc forecast_df inventory_df current_date) s Q.
Proof.
  intros HF HI HQ. unfold Obj.calculate_dfc, calculate_dfc in *.
  unfold future_forecast, valid_inventory in HQ.
  apply wp_bind. wp_derive. rename l' into l1, s' into s1.
  apply wp_bind. wp_derive. rename l' into l2, s' into s2.
  assert (Hl2 : inventories s !! l2 = None)
    by by apply (extends_fresh_inventory s s1).
  unfold id in *.
  apply wp_bind. eapply (wp_forecast_to_datetime l1 s s2); [done..|].
  intros s3 Hs3 Hl1' Hinv3. rewrite <- Hinv3 in *.
  apply wp_bind. eapply (wp_inventory_to_datetime l2 s s3); [done..|].
  intros s4 Hs4 Hl2' Hfc4. rewrite <- Hfc4 in *. cbn [rows] in *.
  clear HF HI. wp_rows.
  apply wp_bind, wp_bind. wp_derive. wp_derive.
  apply wp_bind, wp_bind. wp_derive. wp_derive.
  apply wp_bind. wp_derive. unfold id in *.
  wp_rows. wp_rows.
  eapply wp_mapM.
  - intros pid sa Q' Hsa HQ'. eapply wp_product_row.
    + eapply extends_forecast; [exact Hsa|eassumption].
    + eapply extends_inventory; [exact Hsa|eassumption].
    + done.
  - intros sf Hsf. wp_chain. by apply HQ.
Qed.

Lemma wp_calculate_dfc_over_time forecast_df inventory_df pid s F I Q :
  forecasts s !! forecast_df = Some F → inventories s !! inventory_df = Some I →
  (∀ s', extends s s' → Q (calculate_dfc_over_time (rows F) (rows I) pid) s') →
  wp (Obj.calculate_dfc_over_time forecast_df inventory_df pid) s Q.
Proof.
  intros HF HI HQ. unfold Obj.calculate_dfc_over_time, calculate_dfc_over_time in *.
  apply wp_bind, wp_bind. wp_derive. wp_derive.
  apply wp_bind, wp_bind. wp_derive. wp_derive. unfold id in *.
  wp_rows. wp_rows.
  destruct (empty _ || empty _).
  { apply wp_ret. by apply HQ. }
  apply wp_bind. wp_derive. wp_rows.
  eapply (wp_mapM _ (λ current_date,
            let '(days_covered, total_inventory) :=
              _calculate_days_covered
                (sort_values f_date (filter (λ r, f_product_id r = pid) (rows F)))
                (filter (λ b, i_product_id b = pid) (rows I)) (Some current_date) in
            {| date := current_date; at_days_forward_coverage := days_covered;
               at_total_inventory := total_inventory |})).
  - intros d sa Q' Hsa HQ'. apply wp_bind. eapply wp_calculate_days_covered.
    + eapply extends_forecast; [exact Hsa|eassumption].
    + eapply extends_inventory; [exact Hsa|eassumption].
    + cbn [rows]. intros sb Hsb.
      destruct (_calculate_days_covered _ _ (Some d)). apply wp_ret. by apply HQ'.
  - intros sf Hsf. wp_chain. by apply HQ.
Qed.

End MethodFacts.

(** ** The tables, row by row *)

Section TableFacts.

Context `{SortValues}.


Lemma submseteq_nonneg less more :
  less ⊆+ more → non_negative more → non_negative less.
Proof.
  intros [k Hk]%submseteq_Permutation Hnn. rewrite Hk in Hnn.
  by apply Forall_app in Hnn as [? _].
Qed.

Lemma elem_of_calculate_dfc forecast_df inventory_df current_date row :
  let ref := reference_date forecast_df current_date in
  let ff := future_forecast forecast_df ref in
  let vi := valid_inventory inventory_df ref in
  row ∈ calculate_dfc forecast_df inventory_df current_date ↔
  ∃ pid, pid ∈ all_products ff vi ∧ row = product_row ff vi pid.
Proof.
  intros ref ff vi. unfold calculate_dfc. fold ref. fold vi. fold ff.
  rewrite list_elem_of_fmap. setoid_rewrite elem_of_elements. naive_solver.
Qed.


Lemma calculate_dfc_over_time_rows forecast_df inventory_df pid :
  let pf := filter (λ r, f_product_id r = pid) forecast_df in
  let pi := filter (λ b, i_product_id b = pid) inventory_df in
  pf ≠ [] → pi ≠ [] →
  calculate_dfc_over_time forecast_df inventory_df pid =
    (λ d, {| date := d;
             at_days_forward_coverage :=
               (_calculate_days_covered (sort_values f_date pf) pi (Some d)).1;
             at_total_inventory :=
               (_calculate_days_covered (sort_values f_date pf) pi (Some d)).2 |})
      <$> unique (f_date <$> sort_values f_date pf).
Proof.
  intros pf pi Hpf%empty_false Hpi%empty_false. unfold calculate_dfc_over_time.
  fold pf. fold pi. rewrite Hpf, Hpi. simpl.
  apply list_fmap_ext. intros _ d _.
  by destruct (_calculate_days_covered _ _ (Some d)).
Qed.

Lemma calculate_dfc_over_time_empty forecast_df inventory_df pid :
  filter (λ r, f_product_id r = pid) forecast_df = []
  ∨ filter (λ b, i_product_id b = pid) inventory_df = [] →
  calculate_dfc_over_time forecast_df inventory_df pid = [].
Proof.
  unfold calculate_dfc_over_time. intros [->| ->]; [done|].
  by rewrite orb_true_r.
Qed.

Lemma calculate_dfc_over_time_dates forecast_df inventory_df pid :
  let pf := filter (λ r, f_product_id r = pid) forecast_df in
  let pi := filter (λ b, i_product_id b = pid) inventory_df in
  pf ≠ [] → pi ≠ [] →
  date <$> calculate_dfc_over_time forecast_df inventory_df pid
    = unique (f_date <$> sort_values f_date pf).
Proof.
  intros pf pi Hpf Hpi. rewrite calculate_dfc_over_time_rows by done.
  rewrite <- list_fmap_compose. apply list_fmap_id.
Qed.


Lemma calculate_dfc_over_time_sorted forecast_df inventory_df pid :
  StronglySorted Z.lt (date <$> calculate_dfc_over_time forecast_df inventory_df pid).
Proof.
  destruct (decide (filter (λ r, f_product_id r = pid) forecast_df = [])) as [Hpf|Hpf].
  { rewrite calculate_dfc_over_time_empty by auto. constructor. }
  destruct (decide (filter (λ b, i_product_id b = pid) inventory_df = [])) as [Hpi|Hpi].
  { rewrite calculate_dfc_over_time_empty by auto. constructor. }
  rewrite calculate_dfc_over_time_dates by done.
  apply unique_sorted.
  apply (StronglySorted_fmap f_date (λ a b, f_date a ≤ f_date b)); [done|].
  apply sort_values_sorted.
Qed.


End TableFacts.

(** A shortfall is not skipped: twelve units cover the first day, the second
    asks for twenty, and the third, which one unit would cover, is not
    counted. *)
Example shortfall_ends_the_count :
  (@_calculate_days_covered insertion_sort
     [ {| f_product_id := "P0001"; f_date := ymd 2024 1 1; forecasted_sales := 5 |};
       {| f_product_id := "P0001"; f_date := ymd 2024 1 2; forecasted_sales := 20 |};
       {| f_product_id := "P0001"; f_date := ymd 2024 1 3; forecasted_sales := 1 |} ]
     [scenario_batch (ymd 2024 1 5)] None).1 = 1%nat.
Proof. by vm_compute. Qed.

(** * The claims *)



(** C2, as the specification states it, fails: in scenario B the batch of
    twelve units expires on 2024-01-02 and the table has no row with one day
    of coverage for the product. *)
Lemma scenario_b_is_not_one_day :
  ¬ ∃ row,
      row ∈ @calculate_dfc insertion_sort scenario_forecast
              [scenario_batch (ymd 2024 1 2)] None ∧
      product_id row = "P0001" ∧
      days_forward_coverage row = 1%nat ∧ total_inventory row = 12.
Proof.
  intros (row & Hrow & _ & Hdays & _). vm_compute in Hrow.
  apply list_elem_of_singleton in Hrow. by subst row.
Qed.

(** C2, amended.  In scenario B the batch is still in stock on its expiry
    date, 2024-01-02, and serves the first two days; the third day finds no
    stock.  Whatever the sorting algorithm, the table is the single row of
    the product with two days of coverage and a total inventory of twelve. *)
Theorem scenario_b_coverage `{SortValues} :
  calculate_dfc scenario_forecast [scenario_batch (ymd 2024 1 2)] None
  = [ {| product_id := "P0001"; days_forward_coverage := 2;
         total_inventory := 12; has_forecast := None |} ].
Proof.
  unfold calculate_dfc.
  replace (reference_date scenario_forecast None) with (Some (ymd 2024 1 1))
    by by vm_compute.
  replace (future_forecast scenario_forecast (Some (ymd 2024 1 1)))
    with scenario_forecast by by vm_compute.
  replace (valid_inventory [scenario_batch (ymd 2024 1 2)] (Some (ymd 2024 1 1)))
    with [scenario_batch (ymd 2024 1 2)] by by vm_compute.
  replace (elements (all_products scenario_forecast [scenario_batch (ymd 2024 1 2)]))
    with ["P0001"%string] by by vm_compute.
  cbn [fmap list_fmap]. f_equal. unfold product_row.
  replace (filter (λ r, f_product_id r = "P0001"%string) scenario_forecast)
    with scenario_forecast by by vm_compute.
  replace (filter (λ b, i_product_id b = "P0001"%string) [scenario_batch (ymd 2024 1 2)])
    with [scenario_batch (ymd 2024 1 2)] by by vm_compute.
  cbn [empty scenario_forecast]. unfold _calculate_days_covered.
  unfold prepare_inventory, prepare_forecast.
  rewrite !sort_values_in_order.
  - by vm_compute.
  - unfold ymd. simpl. repeat constructor; simpl; lia.
  - repeat constructor.
Qed.

(** C3, as the specification states it, fails: P0002 appears in the
    inventory and P0003 in the forecast, and with 2024-01-01 as the reference
    date the table has a row for neither. *)
Lemma stale_products_have_no_row :
  (∃ b, b ∈ stale_inventory ∧ i_product_id b = "P0002") ∧
  (∃ r, r ∈ stale_forecast ∧ f_product_id r = "P0003") ∧
  filter (λ row, product_id row = "P0002")
    (@calculate_dfc insertion_sort stale_forecast stale_inventory
       (Some (ymd 2024 1 1))) = [] ∧
  filter (λ row, product_id row = "P0003")
    (@calculate_dfc insertion_sort stale_forecast stale_inventory
       (Some (ymd 2024 1 1))) = [].
Proof.
  split; [|split; [|split; by vm_compute]].
  - eexists. split; [right; left|done].
  - eexists. split; [do 3 right; left|done].
Qed.

(** C3, amended.  The table of [calculate_dfc] has exactly one row for every
    product that has a forecast record dated on or after the reference date,
    or a batch that expires on or after it, and no row for any other
    product. *)
Theorem one_row_per_product_left_after_filtering `{SortValues}
    forecast_df inventory_df current_date pid :
  let ref := reference_date forecast_df current_date in
  let rows_of_product :=
    filter (λ row, product_id row = pid)
      (calculate_dfc forecast_df inventory_df current_date) in
  let left_after_filtering :=
    (∃ r, r ∈ forecast_df ∧ f_product_id r = pid ∧ on_or_after ref (f_date r))
    ∨ (∃ b, b ∈ inventory_df ∧ i_product_id b = pid
            ∧ on_or_after ref (expiry_date b)) in
  (left_after_filtering → length rows_of_product = 1%nat) ∧
  (¬ left_after_filtering → rows_of_product = []).
Proof.
  intros ref rows_of_product left_after_filtering.
  unfold rows_of_product. rewrite calculate_dfc_rows_of. fold ref.
  split; intros Hleft.
  - by rewrite decide_True by by apply elem_of_all_products_inputs.
  - by rewrite decide_False by by rewrite elem_of_all_products_inputs.
Qed.

Lemma one_row_per_product_left_after_filtering_witness :
  length (filter (λ row, product_id row = "P0001")
            (@calculate_dfc insertion_sort stale_forecast stale_inventory
               (Some (ymd 2024 1 1)))) = 1%nat.
Proof.
  apply (@one_row_per_product_left_after_filtering insertion_sort
           stale_forecast stale_inventory (Some (ymd 2024 1 1)) "P0001").
  left. eexists. split; [left|]. by vm_compute.
Defined.

(** C4, as the specification states it, fails: with no forecast record and
    no reference date the default is [NaT], no batch passes the comparison
    with it, and the call returns the empty table. *)
Lemma empty_forecast_returns_empty_table :
  reference_date [] None = None ∧
  @calculate_dfc insertion_sort [] [scenario_batch (ymd 2024 1 5)] None = [].
Proof. split; by vm_compute. Qed.

(** C4, amended.  With the reference date omitted, [calculate_dfc] returns
    the empty table when the forecast has no record, and otherwise works
    with the earliest date of the forecast as the reference date. *)
Theorem omitted_reference_date `{SortValues} forecast_df inventory_df :
  (forecast_df = [] → calculate_dfc forecast_df inventory_df None = []) ∧
  (forecast_df ≠ [] →
   ∃ m, reference_date forecast_df None = Some m ∧
        (∃ r, r ∈ forecast_df ∧ f_date r = m) ∧
        (∀ r, r ∈ forecast_df → m ≤ f_date r) ∧
        calculate_dfc forecast_df inventory_df None
          = calculate_dfc forecast_df inventory_df (Some m)).
Proof.
  split.
  - intros ->. unfold calculate_dfc, valid_inventory, future_forecast. simpl.
    replace (filter (λ b, on_or_after None (expiry_date b)) inventory_df)
      with (@nil InventoryBatch); [done|].
    induction inventory_df as [|b l IH]; [done|].
    rewrite filter_cons_False; [exact IH|]. simpl. tauto.
  - intros Hne. destruct (min_date_spec forecast_df Hne) as (m & Hm & Hin & Hmin).
    exists m. repeat split; try done.
    unfold calculate_dfc, reference_date. by rewrite Hm.
Qed.

Lemma omitted_reference_date_witness :
  @calculate_dfc insertion_sort [] stale_inventory None = [] ∧
  ∃ m, reference_date stale_forecast None = Some m ∧
       (∃ r, r ∈ stale_forecast ∧ f_date r = m) ∧
       (∀ r, r ∈ stale_forecast → m ≤ f_date r) ∧
       @calculate_dfc insertion_sort stale_forecast stale_inventory None
         = @calculate_dfc insertion_sort stale_forecast stale_inventory (Some m).
Proof.
  split.
  - by apply (@omitted_reference_date insertion_sort [] stale_inventory).
  - by apply (@omitted_reference_date insertion_sort stale_forecast stale_inventory).
Defined.







(** C8.  [calculate_dfc] and [calculate_dfc_over_time], run on the frames
    the caller passes, return the tables that the functions on rows compute
    and leave behind a store in which every frame the caller had, the two
    arguments among them, has the rows and the dtype it had: the copies take
    every conversion and every depletion. *)
Theorem caller_tables_are_not_mutated `{SortValues}
    (s : store) (forecast_df inventory_df : loc) F I current_date pid :
  forecasts s !! forecast_df = Some F →
  inventories s !! inventory_df = Some I →
  let unchanged (s' : store) :=
    (∀ l df, forecasts s !! l = Some df → forecasts s' !! l = Some df) ∧
    (∀ l df, inventories s !! l = Some df → inventories s' !! l = Some df) in
  let coverage := Obj.calculate_dfc forecast_df inventory_df current_date s in
  let over_time := Obj.calculate_dfc_over_time forecast_df inventory_df pid s in
  (coverage.1 = calculate_dfc (rows F) (rows I) current_date ∧
   unchanged coverage.2) ∧
  (over_time.1 = calculate_dfc_over_time (rows F) (rows I) pid ∧
   unchanged over_time.2).
Proof.
  intros HF HI unchanged coverage over_time.
  assert (Hext : ∀ s', extends s s' → unchanged s').
  { intros s' Hs'. split; intros l df Hl.
    - by eapply extends_forecast.
    - by eapply extends_inventory. }
  split.
  - pose proof (wp_calculate_dfc forecast_df inventory_df current_date s F I
                  (λ table s', table = calculate_dfc (rows F) (rows I) current_date
                               ∧ unchanged s') HF HI) as Hwp.
    unfold wp in Hwp. apply Hwp. intros s' Hs'. split; [reflexivity|by apply Hext].
  - pose proof (wp_calculate_dfc_over_time forecast_df inventory_df pid s F I
                  (λ table s', table = calculate_dfc_over_time (rows F) (rows I) pid
                               ∧ unchanged s') HF HI) as Hwp.
    unfold wp in Hwp. apply Hwp. intros s' Hs'. split; [reflexivity|by apply Hext].
Qed.

Lemma caller_tables_are_not_mutated_witness :
  let s' := (@Obj.calculate_dfc insertion_sort 1%positive 1%positive None
               caller_store).2 in
  (∀ l df, forecasts caller_store !! l = Some df → forecasts s' !! l = Some df) ∧
  (∀ l df, inventories caller_store !! l = Some df → inventories s' !! l = Some df).
Proof.
  apply (@caller_tables_are_not_mutated insertion_sort caller_store
           1%positive 1%positive
           {| rows := scenario_forecast; date_dtype := object_dtype |}
           {| rows := [scenario_batch (ymd 2024 1 5)]; date_dtype := object_dtype |}
           None "P0001"); reflexivity.
Defined.

(** C9, as the specification states it, fails: the product of the scenario
    has three forecast records and, with an inventory that holds no batch of
    it, [calculate_dfc_over_time] returns no row at all. *)
Lemma forecast_without_inventory_has_no_row :
  (∃ r, r ∈ scenario_forecast ∧ f_product_id r = "P0001") ∧
  @calculate_dfc_over_time insertion_sort scenario_forecast [] "P0001" = [].
Proof.
  split; [|by vm_compute]. eexists. split; [left|done].
Qed.

(** C9, amended.  For a product with at least one forecast record and at
    least one batch, [calculate_dfc_over_time] returns one row for each
    distinct date of its forecast records, in ascending date order, and the
    row of a date holds what the per-product simulation returns with that
    date as its start date.  For a product with no forecast record or no
    batch it returns the empty table. *)
Theorem coverage_over_time_rows `{SortValues} forecast_df inventory_df pid :
  let pf := filter (λ r, f_product_id r = pid) forecast_df in
  let pi := filter (λ b, i_product_id b = pid) inventory_df in
  let table := calculate_dfc_over_time forecast_df inventory_df pid in
  (pf ≠ [] → pi ≠ [] →
   StronglySorted Z.lt (date <$> table) ∧
   (∀ d, d ∈ date <$> table ↔
         ∃ r, r ∈ forecast_df ∧ f_product_id r = pid ∧ f_date r = d) ∧
   (∀ row, row ∈ table →
           (at_days_forward_coverage row, at_total_inventory row)
           = _calculate_days_covered (sort_values f_date pf) pi (Some (date row)))) ∧
  (pf = [] ∨ pi = [] → table = []).
Proof.
  intros pf pi table. split; [|apply calculate_dfc_over_time_empty].
  intros Hpf Hpi. split; [|split].
  - apply calculate_dfc_over_time_sorted.
  - intros d. unfold table. rewrite calculate_dfc_over_time_dates by done.
    rewrite unique_elem, list_elem_of_fmap. setoid_rewrite sort_values_perm.
    unfold pf. setoid_rewrite list_elem_of_filter. naive_solver.
  - intros row. unfold table. rewrite calculate_dfc_over_time_rows by done.
    intros (d & -> & _)%list_elem_of_fmap. simpl.
    by destruct (_calculate_days_covered _ _ (Some d)).
Qed.

Lemma coverage_over_time_rows_witness :
  StronglySorted Z.lt
    (date <$> @calculate_dfc_over_time insertion_sort scenario_forecast
                [scenario_batch (ymd 2024 1 2)] "P0001").
Proof.
  apply (@coverage_over_time_rows insertion_sort scenario_forecast
           [scenario_batch (ymd 2024 1 2)] "P0001");
    vm_compute; discriminate.
Defined.



(** * Further properties of the engine *)

(** ** Row order and sorting algorithm *)


Lemma sort_values_unique (S1 S2 : SortValues) {A} (key : A → Z) (l1 l2 : list A) :
  l1 ≡ₚ l2 →
  (∀ x y, x ∈ l1 → y ∈ l1 → key x = key y → x = y) →
  @sort_values S1 A key l1 = @sort_values S2 A key l2.
Proof.
  intros Hperm Hinj. apply (StronglySorted_unique_strong (λ a b, key a ≤ key b)).
  - intros x1 x2 Hx1 Hx2 H1 H2.
    rewrite sort_values_perm in Hx1. rewrite sort_values_perm, <- Hperm in Hx2.
    apply Hinj; [done..|lia].
  - apply sort_values_sorted.
  - apply sort_values_sorted.
  - by rewrite !sort_values_perm.
Qed.







Lemma one_record_per_day_sort (S1 S2 : SortValues) f pid (l1 l2 : list ForecastRecord) :
  one_record_per_day f → l1 ≡ₚ l2 →
  (∀ r, r ∈ l1 → r ∈ f ∧ f_product_id r = pid) →
  @sort_values S1 _ f_date l1 = @sort_values S2 _ f_date l2.
Proof.
  intros Hone Hperm Hl1. apply sort_values_unique; [done|].
  intros x y [Hx Hxp]%Hl1 [Hy Hyp]%Hl1 Hdate. apply Hone; congruence.
Qed.



(** ** Bounds and early branches *)

Section Bounds.

Context `{SortValues}.

Lemma calculate_days_covered_le pf pi start :
  ((_calculate_days_covered pf pi start).1
   ≤ length match start with
            | Some d => filter (λ r, (d ≤ f_date r)%Z) pf
            | None => pf
            end)%nat.
Proof.
  rewrite <- (Permutation_length (prepare_forecast_perm pf start)).
  destruct (decide (prepare_forecast pf start = [])) as [Hf|Hf].
  { rewrite calculate_days_covered_empty by auto. lia. }
  destruct (decide (prepare_inventory pi start = [])) as [Hi|Hi].
  { rewrite calculate_days_covered_empty by auto. lia. }
  by destruct (calculate_days_covered_longest pf pi start Hf Hi) as [? _].
Qed.

Lemma product_row_cases ff vi pid :
  let pf := filter (λ r, f_product_id r = pid) ff in
  let pi := filter (λ b, i_product_id b = pid) vi in
  (pf = [] ∧ product_row ff vi pid =
     {| product_id := pid; days_forward_coverage := 0;
        total_inventory := 0; has_forecast := Some false |})
  ∨ (pf ≠ [] ∧ pi = [] ∧ product_row ff vi pid =
       {| product_id := pid; days_forward_coverage := 0;
          total_inventory := 0; has_forecast := Some true |})
  ∨ (pf ≠ [] ∧ pi ≠ [] ∧ product_row ff vi pid =
       {| product_id := pid;
          days_forward_coverage := (_calculate_days_covered pf pi None).1;
          total_inventory := (_calculate_days_covered pf pi None).2;
          has_forecast := None |}).
Proof.
  intros pf pi. unfold product_row. fold pf. fold pi.
  destruct pf as [|r pf'] eqn:Hpf; [by left|]. right.
  destruct pi as [|b pi'] eqn:Hpi; [by left|]. right.
  split; [done|]. split; [done|]. simpl.
  by destruct (_calculate_days_covered (r :: pf') (b :: pi') None).
Qed.

Lemma perm_nil_iff {A} (l1 l2 : list A) : l1 ≡ₚ l2 → l1 = [] ↔ l2 = [].
Proof.
  intros Hp. split; intros ->.
  - by apply Permutation_nil_l in Hp.
  - by apply Permutation_nil_r in Hp.
Qed.

End Bounds.

(** X3.  A coverage never exceeds the number of forecast records it was
    counted on: the per-product simulation returns at most the number of
    records dated on or after its start date, and every row of the coverage
    table at most the number of records of its product dated on or after the
    reference date. *)
Theorem coverage_at_most_forecast_days `{SortValues}
    forecast_df inventory_df current_date :
  (∀ product_forecast product_inventory start_date,
     ((_calculate_days_covered product_forecast product_inventory start_date).1
      ≤ length match start_date with
               | Some d => filter (λ r, (d ≤ f_date r)%Z) product_forecast
               | None => product_forecast
               end)%nat) ∧
  (∀ row,
     row ∈ calculate_dfc forecast_df inventory_df current_date →
     (days_forward_coverage row
      ≤ length (filter (λ r, f_product_id r = product_id row)
                  (filter (λ r, on_or_after
                                  (reference_date forecast_df current_date)
                                  (f_date r)) forecast_df)))%nat).
Proof.
  split; [apply calculate_days_covered_le|].
  intros row (pid & _ & ->)%elem_of_calculate_dfc. rewrite product_row_id.
  set (ref := reference_date forecast_df current_date).
  rewrite <- (Permutation_length (product_forecast_perm forecast_df ref pid)).
  destruct (product_row_cases (future_forecast forecast_df ref)
              (valid_inventory inventory_df ref) pid)
    as [[_ ->]|[(_ & _ & ->)|(_ & _ & ->)]]; simpl; try lia.
  apply (calculate_days_covered_le _ _ None).
Qed.

(** X4.  The rows of the two early branches.  A product with no forecast
    record dated on or after the reference date gets zero days, a total
    inventory of zero, whatever its batches hold, and the flag
    [has_forecast = False]; a product with such a record and no batch that
    expires on or after the reference date gets zero days, a total of zero
    and the flag [True]; only the rows of the products that have both carry
    no flag. *)
Theorem rows_of_the_early_branches `{SortValues}
    forecast_df inventory_df current_date row :
  row ∈ calculate_dfc forecast_df inventory_df current_date →
  let ref := reference_date forecast_df current_date in
  let records :=
    filter (λ r, f_product_id r = product_id row)
      (filter (λ r, on_or_after ref (f_date r)) forecast_df) in
  let batches :=
    filter (λ b, i_product_id b = product_id row)
      (filter (λ b, on_or_after ref (expiry_date b)) inventory_df) in
  (records = [] →
   has_forecast row = Some false ∧
   days_forward_coverage row = 0%nat ∧ total_inventory row = 0) ∧
  (records ≠ [] → batches = [] →
   has_forecast row = Some true ∧
   days_forward_coverage row = 0%nat ∧ total_inventory row = 0) ∧
  (records ≠ [] → batches ≠ [] → has_forecast row = None).
Proof.
  intros (pid & _ & ->)%elem_of_calculate_dfc. cbv zeta. rewrite product_row_id.
  set (ref := reference_date forecast_df current_date).
  pose proof (perm_nil_iff _ _ (product_forecast_perm forecast_df ref pid)) as Hnil.
  destruct (product_row_cases (future_forecast forecast_df ref)
              (valid_inventory inventory_df ref) pid)
    as [[Hpf ->]|[(Hpf & Hpi & ->)|(Hpf & Hpi & ->)]]; simpl.
  - apply Hnil in Hpf. repeat split; try done.
  - rewrite Hnil in Hpf. repeat split; try done.
  - rewrite Hnil in Hpf. repeat split; try done.
Qed.

Lemma rows_of_the_early_branches_witness :
  let row := {| product_id := "P0002"; days_forward_coverage := 0;
                total_inventory := 0; has_forecast := Some false |} in
  has_forecast row = Some false ∧
  days_forward_coverage row = 0%nat ∧ total_inventory row = 0.
Proof.
  apply (@rows_of_the_early_branches insertion_sort stale_forecast stale_inventory
           (Some (ymd 2023 12 31))
           {| product_id := "P0002"; days_forward_coverage := 0;
              total_inventory := 0; has_forecast := Some false |}).
  - apply (bool_decide_unpack _). by vm_compute.
  - by vm_compute.
Defined.

(** X5.  The coverage table is empty exactly when no forecast record is dated
    on or after the reference date and no batch expires on or after it; with
    the reference date omitted, exactly when the forecast has no record. *)
Theorem coverage_table_is_empty_iff `{SortValues}
    forecast_df inventory_df current_date :
  (calculate_dfc forecast_df inventory_df current_date = [] ↔
   let ref := reference_date forecast_df current_date in
   (∀ r, r ∈ forecast_df → ¬ on_or_after ref (f_date r)) ∧
   (∀ b, b ∈ inventory_df → ¬ on_or_after ref (expiry_date b))) ∧
  (calculate_dfc forecast_df inventory_df None = [] ↔ forecast_df = []).
Proof.
  assert (Hgen : ∀ c,
    calculate_dfc forecast_df inventory_df c = [] ↔
    (∀ r, r ∈ forecast_df → ¬ on_or_after (reference_date forecast_df c) (f_date r)) ∧
    (∀ b, b ∈ inventory_df →
          ¬ on_or_after (reference_date forecast_df c) (expiry_date b))).
  { intros c. split.
    - intros Hempty. split.
      + intros r Hr Hafter.
        assert (Hin : f_product_id r ∈
                        all_products
                          (future_forecast forecast_df (reference_date forecast_df c))
                          (valid_inventory inventory_df (reference_date forecast_df c))).
        { apply elem_of_all_products_inputs. left. by exists r. }
        assert (Hrow : product_row
                         (future_forecast forecast_df (reference_date forecast_df c))
                         (valid_inventory inventory_df (reference_date forecast_df c))
                         (f_product_id r)
                       ∈ calculate_dfc forecast_df inventory_df c).
        { apply elem_of_calculate_dfc. by eexists. }
        rewrite Hempty in Hrow. by apply elem_of_nil in Hrow.
      + intros b Hb Hafter.
        assert (Hin : i_product_id b ∈
                        all_products
                          (future_forecast forecast_df (reference_date forecast_df c))
                          (valid_inventory inventory_df (reference_date forecast_df c))).
        { apply elem_of_all_products_inputs. right. by exists b. }
        assert (Hrow : product_row
                         (future_forecast forecast_df (reference_date forecast_df c))
                         (valid_inventory inventory_df (reference_date forecast_df c))
                         (i_product_id b)
                       ∈ calculate_dfc forecast_df inventory_df c).
        { apply elem_of_calculate_dfc. by eexists. }
        rewrite Hempty in Hrow. by apply elem_of_nil in Hrow.
    - intros [Hf Hi].
      destruct (calculate_dfc forecast_df inventory_df c) as [|row table] eqn:Htable;
        [done|].
      assert (Hrow : row ∈ calculate_dfc forecast_df inventory_df c)
        by (rewrite Htable; left).
      apply elem_of_calculate_dfc in Hrow as (pid & Hpid & _).
      apply elem_of_all_products_inputs in Hpid as [(r & Hr & _ & Hafter)|(b & Hb & _ & Hafter)].
      + by destruct (Hf r Hr).
      + by destruct (Hi b Hb). }
  split; [apply Hgen|].
  rewrite Hgen. split.
  - intros [Hf _]. destruct (decide (forecast_df = [])) as [|Hne]; [done|].
    destruct (min_date_spec forecast_df Hne) as (m & Hm & (r & Hr & Hrm) & _).
    destruct (Hf r Hr). unfold reference_date. rewrite Hm. simpl. lia.
  - intros ->. split; [by intros r ?%elem_of_nil|]. by intros b _ [].
Qed.

Lemma coverage_at_most_forecast_days_witness :
  ((@_calculate_days_covered insertion_sort scenario_forecast
      [scenario_batch (ymd 2024 1 5)] (Some (ymd 2024 1 2))).1
   ≤ length (filter (λ r, (ymd 2024 1 2 ≤ f_date r)%Z) scenario_forecast))%nat.
Proof.
  apply (@coverage_at_most_forecast_days insertion_sort scenario_forecast
           [scenario_batch (ymd 2024 1 5)] None).
Defined.

(** ** Stock that outlives the forecast *)









(** ** One covered day *)




(** ** The table over time and the coverage table *)

Section OverTimeAgreement.

Context `{SortValues}.

Lemma filter_comm {A} (P Q : A → Prop) `{∀ x, Decision (P x), ∀ x, Decision (Q x)}
    (l : list A) :
  filter P (filter Q l) = filter Q (filter P l).
Proof.
  rewrite !list_filter_filter. apply list_filter_iff. naive_solver.
Qed.

Lemma anchored_simulation forecast_df inventory_df pid d :
  one_record_per_day forecast_df →
  let pf := filter (λ r, f_product_id r = pid) forecast_df in
  let pi := filter (λ b, i_product_id b = pid) inventory_df in
  _calculate_days_covered
    (filter (λ r, f_product_id r = pid) (future_forecast forecast_df (Some d)))
    (filter (λ b, i_product_id b = pid) (valid_inventory inventory_df (Some d)))
    None
  = _calculate_days_covered (sort_values f_date pf) pi (Some d).
Proof.
  intros Hone pf pi. unfold _calculate_days_covered.
  assert (Hinv : prepare_inventory
                   (filter (λ b, i_product_id b = pid)
                      (valid_inventory inventory_df (Some d))) None
                 = prepare_inventory pi (Some d)).
  { unfold prepare_inventory, valid_inventory, pi. simpl. by rewrite filter_comm. }
  assert (Hfc : prepare_forecast
                  (filter (λ r, f_product_id r = pid)
                     (future_forecast forecast_df (Some d))) None
                = prepare_forecast (sort_values f_date pf) (Some d)).
  { unfold prepare_forecast.
    apply (one_record_per_day_sort _ _ forecast_df pid); [done| |].
    - rewrite future_forecast_perm, sort_values_perm. simpl. unfold pf.
      by rewrite filter_comm.
    - intros r [Hp Hr]%list_elem_of_filter. split; [|done].
      rewrite future_forecast_perm in Hr. by apply list_elem_of_filter in Hr as [_ ?]. }
  by rewrite Hinv, Hfc.
Qed.

End OverTimeAgreement.

(** X9.  When no product has two different forecast records for the same
    date, a row of the table over time carries the coverage and the total
    inventory that the coverage table, computed with the date of the row as
    the reference date, has for the product. *)
Theorem over_time_row_is_the_coverage_at_its_date `{SortValues}
    forecast_df inventory_df pid row :
  one_record_per_day forecast_df →
  row ∈ calculate_dfc_over_time forecast_df inventory_df pid →
  ∃ row',
    filter (λ row', product_id row' = pid)
      (calculate_dfc forecast_df inventory_df (Some (date row))) = [row'] ∧
    days_forward_coverage row' = at_days_forward_coverage row ∧
    total_inventory row' = at_total_inventory row.
Proof.
  intros Hone Hrow.
  set (pf := filter (λ r, f_product_id r = pid) forecast_df).
  set (pi := filter (λ b, i_product_id b = pid) inventory_df).
  destruct (decide (pf = [])) as [Hpf|Hpf].
  { rewrite calculate_dfc_over_time_empty in Hrow by auto. by apply elem_of_nil in Hrow. }
  destruct (decide (pi = [])) as [Hpi|Hpi].
  { rewrite calculate_dfc_over_time_empty in Hrow by auto. by apply elem_of_nil in Hrow. }
  rewrite calculate_dfc_over_time_rows in Hrow by done.
  apply list_elem_of_fmap in Hrow as (d & -> & Hd). simpl.
  rewrite unique_elem, list_elem_of_fmap in Hd. destruct Hd as (r & -> & Hr).
  rewrite sort_values_perm in Hr. apply list_elem_of_filter in Hr as [Hrp Hr].
  rewrite calculate_dfc_rows_of. simpl.
  rewrite decide_True.
  2:{ apply elem_of_all_products_inputs. left. exists r. simpl. split; [done|].
      split; [done|lia]. }
  eexists. split; [done|].
  assert (Hin : r ∈ filter (λ r, f_product_id r = pid)
                      (future_forecast forecast_df (Some (f_date r)))).
  { apply list_elem_of_filter. split; [done|]. rewrite future_forecast_perm.
    apply list_elem_of_filter. split; [simpl; lia|done]. }
  destruct (product_row_cases (future_forecast forecast_df (Some (f_date r)))
              (valid_inventory inventory_df (Some (f_date r))) pid)
    as [[Hnil _]|[(_ & Hnil & ->)|(_ & _ & ->)]]; simpl.
  - rewrite Hnil in Hin. by apply elem_of_nil in Hin.
  - assert (Hprep : prepare_inventory (filter (λ b, i_product_id b = pid) inventory_df)
                      (Some (f_date r)) = []).
    { apply Permutation_nil_r. rewrite prepare_inventory_perm.
      unfold valid_inventory in Hnil. rewrite filter_comm in Hnil.
      simpl in Hnil. by rewrite Hnil. }
    rewrite calculate_days_covered_empty by auto.
    by rewrite calculate_days_covered_total, Hprep.
  - by rewrite (anchored_simulation forecast_df inventory_df pid (f_date r) Hone).
Qed.

Lemma over_time_row_is_the_coverage_at_its_date_witness :
  ∃ row',
    filter (λ row', product_id row' = "P0001")
      (@calculate_dfc insertion_sort scenario_forecast
         [scenario_batch (ymd 2024 1 2)] (Some (ymd 2024 1 2))) = [row'] ∧
    days_forward_coverage row' = 1%nat ∧
    total_inventory row' = 12.
Proof.
  apply (@over_time_row_is_the_coverage_at_its_date insertion_sort scenario_forecast
           [scenario_batch (ymd 2024 1 2)] "P0001"
           {| date := ymd 2024 1 2; at_days_forward_coverage := 1;
              at_total_inventory := 12 |}).
  - intros r1 r2 H1 H2 _ Hdate. unfold scenario_forecast in *.
    repeat (apply elem_of_cons in H1 as [->|H1]);
      repeat (apply elem_of_cons in H2 as [->|H2]);
      try done; try (by apply elem_of_nil in H1); by apply elem_of_nil in H2.
  - vm_compute. right. left.
Defined.

(** ** The helper on objects *)

(** X10.  [_calculate_days_covered], run on two frames of a store, returns
    what the function on rows computes from their rows and leaves every frame
    of that store, its two arguments among them, with the rows and the dtype
    it had: it works on the copies it takes first. *)
Theorem helper_works_on_copies `{SortValues}
    (s : store) (product_forecast product_inventory : loc) F I start_date :
  forecasts s !! product_forecast = Some F →
  inventories s !! product_inventory = Some I →
  let result := Obj._calculate_days_covered product_forecast product_inventory
                  start_date s in
  result.1 = _calculate_days_covered (rows F) (rows I) start_date ∧
  (∀ l df, forecasts s !! l = Some df → forecasts result.2 !! l = Some df) ∧
  (∀ l df, inventories s !! l = Some df → inventories result.2 !! l = Some df).
Proof.
  intros HF HI result.
  pose proof (wp_calculate_days_covered product_forecast product_inventory
                start_date s F I
                (λ r s', r = _calculate_days_covered (rows F) (rows I) start_date
                         ∧ extends s s') HF HI) as Hwp.
  unfold wp in Hwp. destruct Hwp as [Hr Hext]; [by intros s' Hs'|].
  split; [done|]. split; intros l df Hl.
  - by eapply extends_forecast.
  - by eapply extends_inventory.
Qed.

Lemma helper_works_on_copies_witness :
  let result := @Obj._calculate_days_covered insertion_sort 1%positive 1%positive
                  (Some (ymd 2024 1 2)) caller_store in
  result.1 = @_calculate_days_covered insertion_sort scenario_forecast
               [scenario_batch (ymd 2024 1 5)] (Some (ymd 2024 1 2)) ∧
  (∀ l df, forecasts caller_store !! l = Some df → forecasts result.2 !! l = Some df) ∧
  (∀ l df, inventories caller_store !! l = Some df →
           inventories result.2 !! l = Some df).
Proof.
  apply (@helper_works_on_copies insertion_sort caller_store 1%positive 1%positive
           {| rows := scenario_forecast; date_dtype := object_dtype |}
           {| rows := [scenario_batch (ymd 2024 1 5)]; date_dtype := object_dtype |}
           (Some (ymd 2024 1 2))); reflexivity.
Defined.

(** * The driver, the product ids and the sidebar filters *)

Lemma column_min_le column x : x ∈ column → (column_min column ≤ x)%nat.
Proof.
  destruct column as [|y column]; [by intros ?%elem_of_nil|]. simpl.
  revert y x. induction column as [|z column IH]; intros y x; simpl.
  - intros ->%list_elem_of_singleton. done.
  - intros [->|Hx]%elem_of_cons.
    + etrans; [apply Nat.le_min_r|]. apply IH. left.
    + apply elem_of_cons in Hx as [->|Hx]; [apply Nat.le_min_l|].
      etrans; [apply Nat.le_min_r|]. apply (IH y). by right.
Qed.

Lemma column_max_ge column x : x ∈ column → (x ≤ column_max column)%nat.
Proof.
  destruct column as [|y column]; [by intros ?%elem_of_nil|]. simpl.
  revert y x. induction column as [|z column IH]; intros y x; simpl.
  - intros ->%list_elem_of_singleton. done.
  - intros [->|Hx]%elem_of_cons.
    + etrans; [|apply Nat.le_max_r]. apply IH. left.
    + apply elem_of_cons in Hx as [->|Hx]; [apply Nat.le_max_l|].
      etrans; [|apply Nat.le_max_r]. apply (IH y). by right.
Qed.

Lemma filter_on_or_after_min_date forecast_df :
  filter (λ r, on_or_after (min_date forecast_df) (f_date r)) forecast_df
  = forecast_df.
Proof.
  destruct (decide (forecast_df = [])) as [->|Hne]; [done|].
  destruct (min_date_spec forecast_df Hne) as (m & -> & _ & Hmin).
  induction forecast_df as [|r df IH] in Hmin |- *; [done|].
  rewrite filter_cons_True by (apply Hmin; left). f_equal.
  destruct (decide (df = [])) as [->|Hdf]; [done|].
  apply IH. intros r' Hr'. apply Hmin. by right.
Qed.

Section DriverFacts.

Context `{SortValues}.

Lemma calculate_dfc_length forecast_df inventory_df current_date :
  let ref := reference_date forecast_df current_date in
  length (calculate_dfc forecast_df inventory_df current_date)
  = size (all_products (future_forecast forecast_df ref)
            (valid_inventory inventory_df ref)).
Proof. intros ref. unfold calculate_dfc. by rewrite length_fmap. Qed.

Lemma calculate_dfc_default_empty forecast_df inventory_df :
  calculate_dfc forecast_df inventory_df None = [] ↔ forecast_df = [].
Proof.
  split.
  - intros Hempty. destruct (decide (forecast_df = [])) as [|Hne]; [done|].
    destruct (min_date_spec forecast_df Hne) as (m & Hm & (r & Hr & Hrm) & _).
    assert (Hrow : product_row
                     (future_forecast forecast_df (reference_date forecast_df None))
                     (valid_inventory inventory_df (reference_date forecast_df None))
                     (f_product_id r)
                   ∈ calculate_dfc forecast_df inventory_df None).
    { apply elem_of_calculate_dfc. eexists. split; [|done].
      apply elem_of_all_products_inputs. left. exists r.
      split; [done|]. split; [done|]. simpl. rewrite Hm. simpl. lia. }
    rewrite Hempty in Hrow. by apply elem_of_nil in Hrow.
  - intros ->. unfold calculate_dfc, valid_inventory, future_forecast. simpl.
    replace (filter (λ b, on_or_after None (expiry_date b)) inventory_df)
      with (@nil InventoryBatch); [done|].
    induction inventory_df as [|b l IH]; [done|].
    rewrite filter_cons_False; [exact IH|]. simpl. tauto.
Qed.

End DriverFacts.

(** X11.  How a run of the driver ends.  When one of the two CSV files does
    not exist it prints the error line and returns.  When both exist and the
    forecast file has no row it saves an empty coverage table, prints the
    header and a count of zero, and then raises [KeyError] at the first
    statistic.  In every other case it returns, and never prints the error
    line. *)
Theorem driver_outcomes `{SortValues} forecast_df inventory_df :
  (∀ forecast_csv inventory_csv,
     forecast_csv = None ∨ inventory_csv = None →
     main forecast_csv inventory_csv = ([DatasetFilesNotFound], Returns)) ∧
  main (Some []) (Some inventory_df)
    = ([SavedCoverageData []; SummaryHeader; TotalProductsAnalyzed 0],
       RaisesKeyError) ∧
  ((main (Some forecast_df) (Some inventory_df)).2 = RaisesKeyError
   ↔ forecast_df = []) ∧
  DatasetFilesNotFound ∉ (main (Some forecast_df) (Some inventory_df)).1.
Proof.
  split; [|split; [|split]].
  - intros forecast_csv inventory_csv [-> | ->]; [done|]. by destruct forecast_csv.
  - unfold main.
    by rewrite (proj2 (calculate_dfc_default_empty [] inventory_df) eq_refl).
  - unfold main.
    destruct (calculate_dfc forecast_df inventory_df None) as [|row table] eqn:Htable.
    + apply calculate_dfc_default_empty in Htable. by subst.
    + cbn [empty snd]. split; [done|]. intros Hf.
      apply (calculate_dfc_default_empty forecast_df inventory_df) in Hf. congruence.
  - unfold main.
    destruct (calculate_dfc forecast_df inventory_df None) as [|row table] eqn:Htable.
    + cbn [empty fst]. rewrite !not_elem_of_cons.
      repeat split; try done. apply not_elem_of_nil.
    + cbn [empty fst].
      rewrite !not_elem_of_app, !not_elem_of_cons.
      repeat split; try done; try apply not_elem_of_nil.
      * destruct (empty _); [apply not_elem_of_nil|].
        rewrite not_elem_of_cons. split; [done|apply not_elem_of_nil].
      * destruct (_ && _); [|apply not_elem_of_nil].
        rewrite not_elem_of_cons. split; [done|apply not_elem_of_nil].
Qed.

Lemma driver_outcomes_witness :
  @main insertion_sort None (Some stale_inventory)
    = ([DatasetFilesNotFound], Returns) ∧
  @main insertion_sort (Some []) (Some stale_inventory)
    = ([SavedCoverageData []; SummaryHeader; TotalProductsAnalyzed 0],
       RaisesKeyError) ∧
  DatasetFilesNotFound
    ∉ (@main insertion_sort (Some stale_forecast) (Some stale_inventory)).1.
Proof.
  pose proof (@driver_outcomes insertion_sort stale_forecast stale_inventory)
    as (Hmissing & Hempty & _ & Hprinted).
  split; [|split; [exact Hempty|exact Hprinted]].
  apply Hmissing. by left.
Defined.

(** X12.  The number of products the driver reports as analyzed is the
    number of distinct product ids among the forecast records and the
    batches that expire on or after the earliest forecast date: a product
    whose batches all expired before that date and that has no forecast
    record is not counted. *)
Theorem driver_counts_products `{SortValues} forecast_df inventory_df :
  let products : gset string :=
    list_to_set (f_product_id <$> forecast_df)
    ∪ list_to_set
        (i_product_id <$>
           filter (λ b, on_or_after (min_date forecast_df) (expiry_date b))
             inventory_df) in
  TotalProductsAnalyzed (size products)
    ∈ (main (Some forecast_df) (Some inventory_df)).1.
Proof.
  intros products.
  assert (Hlen : length (calculate_dfc forecast_df inventory_df None) = size products).
  { rewrite calculate_dfc_length. unfold products, all_products, reference_date.
    f_equal. f_equal. apply list_to_set_perm_L.
    by rewrite future_forecast_perm, filter_on_or_after_min_date. }
  unfold main. rewrite Hlen.
  destruct (empty _); cbn [fst]; [by do 2 right; left|].
  apply elem_of_app. left. by do 2 right; left.
Qed.

(** X13.  A product that has batches in stock and no forecast record is
    listed by the driver among the products with no inventory, and among
    those with less than seven days of coverage: its row has a total
    inventory of zero, whatever its batches hold, and is counted in both
    figures. *)
Theorem driver_reports_unforecast_products_without_inventory `{SortValues}
    forecast_df inventory_df pid b :
  forecast_df ≠ [] →
  (∀ r, r ∈ forecast_df → f_product_id r ≠ pid) →
  b ∈ inventory_df → i_product_id b = pid →
  on_or_after (min_date forecast_df) (expiry_date b) →
  let coverage_df := calculate_dfc forecast_df inventory_df None in
  let low_coverage :=
    filter (λ row, (days_forward_coverage row < 7)%nat) coverage_df in
  let no_inventory := filter (λ row, total_inventory row = 0) coverage_df in
  let row := {| product_id := pid; days_forward_coverage := 0;
                total_inventory := 0; has_forecast := Some false |} in
  row ∈ low_coverage ∧ row ∈ no_inventory ∧
  LowCoverageCount (length low_coverage)
    ∈ (main (Some forecast_df) (Some inventory_df)).1 ∧
  NoInventoryCount (length no_inventory)
    ∈ (main (Some forecast_df) (Some inventory_df)).1.
Proof.
  intros Hne Hnone Hb Hbp Hafter coverage_df low_coverage no_inventory row.
  assert (Hrow : row ∈ coverage_df).
  { apply elem_of_calculate_dfc. exists pid. split.
    - apply elem_of_all_products_inputs. right. by exists b.
    - destruct (product_row_cases
                  (future_forecast forecast_df (reference_date forecast_df None))
                  (valid_inventory inventory_df (reference_date forecast_df None)) pid)
        as [[_ ->]|[(Hpf & _)|(Hpf & _)]]; [done|exfalso..].
      + apply nonempty_elem in Hpf as [r [Hrp Hr]%list_elem_of_filter].
        rewrite future_forecast_perm in Hr.
        apply list_elem_of_filter in Hr as [_ Hr]. by apply (Hnone r).
      + apply nonempty_elem in Hpf as [r [Hrp Hr]%list_elem_of_filter].
        rewrite future_forecast_perm in Hr.
        apply list_elem_of_filter in Hr as [_ Hr]. by apply (Hnone r). }
  split; [apply list_elem_of_filter; split; [simpl; lia|done]|].
  split; [by apply list_elem_of_filter|].
  unfold main. fold coverage_df.
  destruct coverage_df as [|row0 table] eqn:Htable; [by apply elem_of_nil in Hrow|].
  cbn [empty fst]. fold low_coverage. fold no_inventory.
  split.
  - apply elem_of_app. right. apply elem_of_app. left. by do 3 right; left.
  - do 3 (apply elem_of_app; right). apply elem_of_app. left. left.
Qed.

Lemma driver_reports_unforecast_products_without_inventory_witness :
  let coverage_df :=
    @calculate_dfc insertion_sort stale_forecast stale_inventory None in
  {| product_id := "P0002"; days_forward_coverage := 0;
     total_inventory := 0; has_forecast := Some false |}
    ∈ filter (λ row, total_inventory row = 0) coverage_df ∧
  NoInventoryCount (length (filter (λ row, total_inventory row = 0) coverage_df))
    ∈ (@main insertion_sort (Some stale_forecast) (Some stale_inventory)).1.
Proof.
  pose proof (@driver_reports_unforecast_products_without_inventory insertion_sort
                stale_forecast stale_inventory "P0002"
                {| i_product_id := "P0002"; batch_id := "P0002_B1";
                   expiry_date := ymd 2023 12 31; inventory := 7 |}) as Hthm.
  destruct Hthm as (_ & Hrow & _ & Hcount).
  - done.
  - intros r Hr. unfold stale_forecast, scenario_forecast in Hr. simpl in Hr.
    repeat (apply elem_of_cons in Hr as [->|Hr]); try done.
    by apply elem_of_nil in Hr.
  - right. left.
  - done.
  - vm_compute. discriminate.
  - by split.
Defined.

(** ** Product ids *)

Lemma to_uint_nonnil n : Nat.to_uint n ≠ Nil.
Proof.
  intros Hnil. pose proof (Unsigned.to_of (Nat.to_uint n)) as Hto.
  rewrite Unsigned.of_to, Hnil in Hto. discriminate.
Qed.

Lemma uint_of_string_zeros k s :
  NilEmpty.uint_of_string (zeros k +:+ s)
  = Nat.iter k D0 <$> NilEmpty.uint_of_string s.
Proof.
  induction k as [|k IH].
  - change (zeros 0 +:+ s) with s. by destruct (NilEmpty.uint_of_string s).
  - change (zeros (S k) +:+ s) with (String "0"%char (zeros k +:+ s)).
    cbn [NilEmpty.uint_of_string]. rewrite IH.
    by destruct (NilEmpty.uint_of_string s).
Qed.

Lemma of_uint_leading_zeros k d : Nat.of_uint (Nat.iter k D0 d) = Nat.of_uint d.
Proof. induction k as [|k IH]; [done|]. simpl. exact IH. Qed.

(** Reading the digits of a formatted number gives the number back. *)
Lemma format_04d_read i :
  Nat.of_uint <$> NilEmpty.uint_of_string (format_04d i) = Some i.
Proof.
  unfold format_04d. rewrite uint_of_string_zeros.
  assert (Hdigits : NilZero.string_of_uint (Nat.to_uint i)
                    = NilEmpty.string_of_uint (Nat.to_uint i)).
  { pose proof (to_uint_nonnil i). by destruct (Nat.to_uint i). }
  rewrite Hdigits, NilEmpty.usu. simpl.
  by rewrite of_uint_leading_zeros, Unsigned.of_to.
Qed.

Lemma format_04d_inj i j : format_04d i = format_04d j → i = j.
Proof.
  intros Heq. pose proof (format_04d_read i) as Hi.
  rewrite Heq, format_04d_read in Hi. by injection Hi.
Qed.

Lemma format_04d_length i : (4 ≤ String.length (format_04d i))%nat.
Proof.
  unfold format_04d. generalize (NilZero.string_of_uint (Nat.to_uint i)).
  intros digits.
  assert (Hlen : ∀ k s, String.length (zeros k +:+ s) = (k + String.length s)%nat).
  { intros k s. induction k as [|k IH]; [done|].
    change (zeros (S k) +:+ s) with (String "0"%char (zeros k +:+ s)).
    cbn [String.length]. by rewrite IH. }
  rewrite Hlen. lia.
Qed.

(** X14.  [generate_product_ids] returns as many ids as it is asked for, all
    different; the id at position [k] is the letter P followed by at least
    four digits that read, as a decimal number, [k + 1]. *)
Theorem product_ids_are_distinct num_products :
  length (generate_product_ids num_products) = num_products ∧
  NoDup (generate_product_ids num_products) ∧
  ∀ k, (k < num_products)%nat →
    ∃ digits,
      generate_product_ids num_products !! k = Some ("P" +:+ digits) ∧
      (4 ≤ String.length digits)%nat ∧
      Nat.of_uint <$> NilEmpty.uint_of_string digits = Some (S k).
Proof.
  unfold generate_product_ids. split; [|split].
  - by rewrite length_fmap, length_seq.
  - apply NoDup_fmap_2_strong; [|apply NoDup_seq].
    intros i j _ _ Heq. simpl in Heq. injection Heq as Heq.
    by apply format_04d_inj.
  - intros k Hk. exists (format_04d (S k)). split; [|split].
    + rewrite list_lookup_fmap, lookup_seq_lt by done. done.
    + apply format_04d_length.
    + apply format_04d_read.
Qed.

Lemma product_ids_are_distinct_witness :
  ∃ digits,
    generate_product_ids 12 !! 11%nat = Some ("P" +:+ digits) ∧
    (4 ≤ String.length digits)%nat ∧
    Nat.of_uint <$> NilEmpty.uint_of_string digits = Some 12%nat.
Proof.
  apply (product_ids_are_distinct 12). lia.
Defined.

(** ** Sidebar filters *)

(** X15.  The coverage-range filter of the dashboard removes no row: its
    bounds are the least and the greatest coverage of the table itself, so on
    a table that has a row the filtered table is the table, restricted to the
    selected products when some are selected.  On a table without row the
    block raises. *)
Theorem coverage_range_filter_keeps_every_row coverage_df selected_products :
  (coverage_df = [] → filtered_coverage coverage_df selected_products = None) ∧
  (coverage_df ≠ [] →
   filtered_coverage coverage_df selected_products
   = Some (if empty selected_products then coverage_df
           else filter (λ row, product_id row ∈ selected_products) coverage_df)).
Proof.
  split; [by intros ->|]. intros Hne. unfold filtered_coverage.
  apply empty_false in Hne as ->.
  assert (Hall : filter
                   (λ row, (column_min (days_forward_coverage <$> coverage_df)
                            ≤ days_forward_coverage row)%nat
                           ∧ (days_forward_coverage row
                              ≤ column_max (days_forward_coverage <$> coverage_df))%nat)
                   coverage_df = coverage_df).
  { generalize (column_min_le (days_forward_coverage <$> coverage_df)).
    generalize (column_max_ge (days_forward_coverage <$> coverage_df)).
    generalize (column_min (days_forward_coverage <$> coverage_df)).
    generalize (column_max (days_forward_coverage <$> coverage_df)).
    intros hi lo Hhi Hlo.
    induction coverage_df as [|row table IH]; [done|].
    rewrite filter_cons_True.
    - f_equal. apply IH.
      + intros x Hx. apply Hhi. rewrite fmap_cons. by right.
      + intros x Hx. apply Hlo. rewrite fmap_cons. by right.
    - split; [apply Hlo|apply Hhi]; rewrite fmap_cons; left. }
  by rewrite Hall.
Qed.

Lemma coverage_range_filter_keeps_every_row_witness :
  filtered_coverage
    (@calculate_dfc insertion_sort stale_forecast stale_inventory None) []
  = Some (@calculate_dfc insertion_sort stale_forecast stale_inventory None).
Proof.
  apply (coverage_range_filter_keeps_every_row
           (@calculate_dfc insertion_sort stale_forecast stale_inventory None) []).
  vm_compute. discriminate.
Defined.

(** * Moving the start date forward *)







Section LaterStart.

Context `{SortValues}.




End LaterStart.



(** * Demand *)


Section RaisedDemand.

Context `{SortValues}.




End RaisedDemand.




